(** * Crawl scope and link classification of the Playwright links crawler

  The repository holds two variants of one crawler:

  - the scoped crawler (the program listed after the README), with a
    path prefix table, a scope token table, an asset classifier and the
    [isInScope] / [assetMatchesScope] predicates;
  - [src/playwrightLinksCrawler.ts], the plain crawler, which only knows
    the allowed host names.

  Both are embedded below, function by function.  JavaScript strings are
  modelled by [string], read as sequences of code units below 256; the
  runtime's [URL] class is an interface ([URLApi]); the crawling engine is
  a function from the start URLs to a rejection or to the page visits it
  delivers to [requestHandler] ([Engine]). *)

From Stdlib Require Import Ascii.
From stdpp Require Import gmap strings list sorting.

(** ** JavaScript string primitives *)

Module JS.

(** Code-unit level case mapping of [String.prototype.toLowerCase] on
    code units below 256: A-Z and the Latin-1 capitals move up by 32. *)
Definition lower_ascii (c : ascii) : ascii :=
  let n := nat_of_ascii c in
  if ((65 <=? n) && (n <=? 90)) || ((192 <=? n) && (n <=? 222) && negb (n =? 215))
  then ascii_of_nat (n + 32) else c.

Fixpoint toLowerCase (s : string) : string :=
  match s with
  | EmptyString => EmptyString
  | String c s' => String (lower_ascii c) (toLowerCase s')
  end.

(** [s.startsWith(p)] *)
Fixpoint startsWith (s p : string) {struct p} : bool :=
  match p, s with
  | EmptyString, _ => true
  | String b p', String a s' => bool_decide (a = b) && startsWith s' p'
  | String _ _, EmptyString => false
  end.

(** [s.endsWith(p)] *)
Fixpoint endsWith (s p : string) : bool :=
  bool_decide (s = p) ||
  match s with
  | EmptyString => false
  | String _ s' => endsWith s' p
  end.

(** [s.includes(t)] *)
Fixpoint includes (s t : string) : bool :=
  startsWith s t ||
  match s with
  | EmptyString => false
  | String _ s' => includes s' t
  end.

(** White space of [String.prototype.trim] among code units below 256. *)
Definition is_white (c : ascii) : bool :=
  Ascii.is_space c || bool_decide (c = "160"%char).

Fixpoint trimStart (s : string) : string :=
  match s with
  | EmptyString => EmptyString
  | String c s' => if is_white c then trimStart s' else s
  end.

Fixpoint trimEnd (s : string) : string :=
  match s with
  | EmptyString => EmptyString
  | String c s' =>
      let t := trimEnd s' in
      if is_white c && bool_decide (t = EmptyString) then EmptyString
      else String c t
  end.

(** [s.trim()] *)
Definition trim (s : string) : string := trimEnd (trimStart s).

(** [s.split(c)] for a one-character separator: never the empty list. *)
Fixpoint split (c : ascii) (s : string) : list string :=
  match s with
  | EmptyString => [EmptyString]
  | String a s' =>
      if bool_decide (a = c) then EmptyString :: split c s'
      else match split c s' with
           | h :: t => String a h :: t
           | [] => [String a EmptyString]
           end
  end.

(** [s.split(c)[0]] *)
Definition split0 (c : ascii) (s : string) : string :=
  default EmptyString (head (split c s)).

(** [Boolean(s)] on a string: the empty string is the only falsy one. *)
Definition truthy (s : string) : bool := negb (bool_decide (s = EmptyString)).

(** [s || d] on strings. *)
Definition or_else (s d : string) : string := if truthy s then s else d.

(** [xs.filter(Boolean)] *)
Definition filterBoolean (xs : list string) : list string :=
  List.filter truthy xs.

(** [set.add(x)] on a [Set<string>]; iteration order plays no role below,
    the only reader sorts the elements. *)
Definition add (x : string) (set : gset string) : gset string := {[ x ]} ∪ set.

(** [xs.join(sep)] *)
Fixpoint join (sep : string) (xs : list string) : string :=
  match xs with
  | [] => EmptyString
  | [x] => x
  | x :: xs' => x +:+ sep +:+ join sep xs'
  end.

End JS.

(** ** The runtime's [URL] class

  [new URL(s)] either yields a URL object or throws a [TypeError]; the
  crawler reads [href], [protocol], [hostname] and [pathname] and assigns
  the empty string to [hash]. *)

Class URLApi (URL : Type) := {
  newURL : string → option URL;
  href : URL → string;
  protocol : URL → string;
  hostname : URL → string;
  pathname : URL → string;
  (** [u.hash = ""] *)
  clearHash : URL → URL;
}.

(** What the crawler relies on when it serialises a URL and parses it
  again: the fragment is the only place of a ["#"] in [href], and a parsed
  URL whose fragment was removed parses back to itself.  The runtime obeys
  these laws on URLs with a host, as the ones of [http:] and [https:]; it
  breaks the second on an opaque path that ends in a space before the
  fragment, see [TrimURL] and [TrimURL_breaks_laws] below. *)
Class URLLaws (URL : Type) `{URLApi URL} : Prop := {
  split_hash_href (s : string) (u : URL) :
    newURL s = Some u → JS.split0 "#" (href u) = href (clearHash u);
  reparse_clearHash (s : string) (u : URL) :
    newURL s = Some u → newURL (href (clearHash u)) = Some (clearHash u);
  clearHash_idemp (u : URL) : clearHash (clearHash u) = clearHash u;
}.

(** ** Process environment and run outcome *)

Record ProcessEnv := {
  argv : list string;
  START_URL : option string;
  SAME_DOMAIN_ONLY : option string;
}.

Inductive Outcome :=
| Exited (code : nat)
| Completed (linksArray : list string).

(** [new PlaywrightCrawler(...)] followed by [await crawler.run(startUrls)].
    The engine belongs to [crawlee]: given the start URLs, as [main] hands
    them over, it either rejects ([None]; [main().catch] then calls
    [process.exit(1)]) or resolves after it ran [requestHandler] on the link
    lists of the pages it visited, in that order.  A failing
    [import("crawlee")] counts as a rejection: the exit code is the same. *)
Definition Engine : Type := list string → option (list (list string)).

(** What follows the run in the plain crawler: [Dataset.open],
    [dataset.pushData] and the two [writeFile] on [linksArray]; [false]
    when one of them rejects. *)
Definition Storage : Type := list string → bool.

Definition no_start_url : string :=
  "No start URL provided. Pass a URL as a CLI arg or set START_URL.".

(** The constant [startUrls] of [parseStartUrls]. *)
Definition startUrlsOf (env : ProcessEnv) : list string :=
  let cliArgs := JS.filterBoolean (drop 2 (argv env)) in
  let envArg :=
    match START_URL env with
    | Some v => JS.filterBoolean (JS.trim <$> JS.split "," v)
    | None => []
    end in
  if bool_decide (0 < length cliArgs) then cliArgs else envArg.

(** [parseStartUrls]: [inl] is the thrown error (scoped crawler) or the
    [process.exit(1)] after [console.error] (plain crawler). *)
Definition parseStartUrls (env : ProcessEnv) : string + list string :=
  let startUrls := startUrlsOf env in
  if bool_decide (length startUrls = 0) then inl no_start_url
  else inr startUrls.

Definition readSameDomainOnly (env : ProcessEnv) : bool :=
  bool_decide (JS.toLowerCase (default "true" (SAME_DOMAIN_ONLY env)) = "true").

(** [[...discoveredLinks].sort()]: the default comparison of
  [Array.prototype.sort] orders strings by code units. *)
Definition sortedLinks (discoveredLinks : gset string) : list string :=
  merge_sort String.le (elements discoveredLinks).

Definition isSkippableScheme (h : string) : bool :=
  let lower := JS.toLowerCase h in
  JS.startsWith lower "javascript:" ||
  JS.startsWith lower "mailto:" ||
  JS.startsWith lower "tel:" ||
  JS.startsWith lower "data:".

Section Hostnames.
Context {URL : Type} `{!URLApi URL}.

Definition getAllowedHostnames (urls : list string) : gset string :=
  foldl (λ hosts u,
           match newURL u with
           | Some x => JS.add (hostname x) hosts
           | None => hosts
           end) ∅ urls.

(** An engine that checks the URL of every start request when it creates
    it, as [crawlee] does: it rejects a list with an entry that [new URL]
    refuses, and otherwise delivers [visits]. *)
Definition validatingEngine (visits : list (list string)) : Engine :=
  λ startUrls,
    if forallb (λ u, bool_decide (is_Some (newURL u))) startUrls
    then Some visits else None.
End Hostnames.

(** ** The scoped crawler *)

Module Scoped.
Section Defs.
Context {URL : Type} `{!URLApi URL}.

Definition normalizePathPrefix (pathname : string) : string :=
  if negb (JS.truthy pathname) then "/"
  else
    let p := JS.trim pathname in
    let p := if negb (JS.startsWith p "/") then "/" +:+ p else p in
    let p := if negb (JS.endsWith p "/") then p +:+ "/" else p in
    p.

Definition addPrefix (map : gmap string (list string)) (u : string)
  : gmap string (list string) :=
  match newURL u with
  | Some x =>
      let prefix := normalizePathPrefix (JS.or_else (pathname x) "/") in
      let arr := default [] (map !! hostname x) in
      let arr := if bool_decide (prefix ∈ arr) then arr else arr ++ [prefix] in
      <[ hostname x := arr ]> map
  | None => map
  end.

Definition getHostnameToPathPrefixes (urls : list string)
  : gmap string (list string) :=
  foldl addPrefix ∅ urls.

Definition addToken (tokens : gset string) (p : string) : gset string :=
  let seg := default "" (head (JS.filterBoolean (JS.split "/" p))) in
  if JS.truthy seg then JS.add (JS.toLowerCase seg) tokens else tokens.

Definition getHostnameToScopeTokens (hostPrefixes : gmap string (list string))
  : gmap string (gset string) :=
  (λ prefixes, foldl addToken ∅ prefixes) <$> hostPrefixes.

Definition nonHtmlExts : list string :=
  [".pdf"; ".doc"; ".docx"; ".xls"; ".xlsx"; ".csv"; ".zip"; ".rar"; ".7z";
   ".jpg"; ".jpeg"; ".png"; ".gif"; ".webp"; ".svg"; ".mp4"; ".mov"; ".avi";
   ".mp3"; ".wav"; ".m4a"].

Definition isLikelyBinaryAsset (pathname : string) : bool :=
  let lower := JS.toLowerCase pathname in
  existsb (λ ext, JS.endsWith lower ext) nonHtmlExts.

Definition isInScope (urlObj : URL) (sameDomainOnly : bool)
    (allowedHostnames : gset string)
    (hostPrefixes : gmap string (list string)) : bool :=
  if sameDomainOnly && negb (bool_decide (hostname urlObj ∈ allowedHostnames))
  then false
  else
    match hostPrefixes !! hostname urlObj with
    | Some prefixes =>
        if bool_decide (0 < length prefixes) then
          let normalizedPath :=
            normalizePathPrefix (JS.or_else (pathname urlObj) "/") in
          existsb (λ p, JS.startsWith normalizedPath p) prefixes
        else true
    | None => true
    end.

Definition assetMatchesScope (urlObj : URL)
    (hostScopeTokens : gmap string (gset string)) : bool :=
  match hostScopeTokens !! hostname urlObj with
  | None => true
  | Some tokens =>
      if bool_decide (size tokens = 0) then true
      else
        let lowerPath := JS.toLowerCase (pathname urlObj) in
        existsb (λ t, JS.includes lowerPath t) (elements tokens)
  end.

(** The constants of [main] that the two callbacks close over. *)
Record Scope := {
  sameDomainOnly : bool;
  allowedHostnames : gset string;
  hostnameToPrefixes : gmap string (list string);
  hostnameToScopeTokens : gmap string (gset string);
}.

Definition buildScope (startUrls : list string) (sdo : bool) : Scope :=
  let prefixes := getHostnameToPathPrefixes startUrls in
  {| sameDomainOnly := sdo;
     allowedHostnames := getAllowedHostnames startUrls;
     hostnameToPrefixes := prefixes;
     hostnameToScopeTokens := getHostnameToScopeTokens prefixes |}.

(** The decision of the loop body of [requestHandler] for a parsed link. *)
Definition shouldRecord (sc : Scope) (u : URL) : bool :=
  let isAsset := isLikelyBinaryAsset (pathname u) in
  let withinHost :=
    negb (sameDomainOnly sc) || bool_decide (hostname u ∈ allowedHostnames sc) in
  if isAsset then withinHost && assetMatchesScope u (hostnameToScopeTokens sc)
  else isInScope u (sameDomainOnly sc) (allowedHostnames sc) (hostnameToPrefixes sc).

(** The first two statements of the [try] block: [None] is the [catch]
    branch. *)
Definition normalizeHref (h : string) : option URL :=
  match newURL h with
  | Some u0 => let absolute := JS.split0 "#" (href u0) in newURL absolute
  | None => None
  end.

(** The URL object the loop body works on: [None] stands for [continue]
    and for the [catch] branch. *)
Definition parseLink (h : string) : option URL :=
  if isSkippableScheme h then None else normalizeHref h.

(** One iteration of [for (const href of pageLinks)]. *)
Definition processLink (sc : Scope) (discoveredLinks : gset string)
    (h : string) : gset string :=
  match parseLink h with
  | Some u =>
      if shouldRecord sc u then JS.add (href u) discoveredLinks
      else discoveredLinks
  | None => discoveredLinks
  end.

(** The effect of [requestHandler] on [discoveredLinks] for one page. *)
Definition requestHandler (sc : Scope) (discoveredLinks : gset string)
    (pageLinks : list string) : gset string :=
  foldl (processLink sc) discoveredLinks pageLinks.

(** [transformRequestFunction]: [Some url] is the request returned with
    its rewritten [url], [None] is [null]. *)
Definition transformRequestFunction (sc : Scope) (req_url : string)
  : option string :=
  match newURL req_url with
  | Some u0 =>
      let u := clearHash u0 in
      let req_url := href u in
      if negb (bool_decide (protocol u = "http:")) &&
         negb (bool_decide (protocol u = "https:")) then None
      else if negb (isInScope u (sameDomainOnly sc) (allowedHostnames sc)
                      (hostnameToPrefixes sc)) then None
      else if isLikelyBinaryAsset (pathname u) then None
      else Some req_url
  | None => None
  end.

(** [main] with [main().catch]: an error thrown by [parseStartUrls] and a
    rejection of the engine both end in [process.exit(1)]; the start URLs
    go to the engine as [parseStartUrls] returned them. *)
Definition main (env : ProcessEnv) (engine : Engine) : Outcome :=
  match parseStartUrls env with
  | inl _ => Exited 1
  | inr startUrls =>
      let sc := buildScope startUrls (readSameDomainOnly env) in
      match engine startUrls with
      | Some visits =>
          let discoveredLinks := foldl (requestHandler sc) ∅ visits in
          Completed (sortedLinks discoveredLinks)
      | None => Exited 1
      end
  end.

End Defs.
End Scoped.

(** ** The plain crawler, [src/playwrightLinksCrawler.ts] *)

Module Links.
Section Defs.
Context {URL : Type} `{!URLApi URL}.

(** The first statement of the [try] block: [None] is the [catch] branch. *)
Definition normalizeHref (h : string) : option string :=
  match newURL h with
  | Some u0 => Some (JS.split0 "#" (href u0))
  | None => None
  end.

(** One iteration of [for (const href of pageLinks)]. *)
Definition processLink (sameDomainOnly : bool) (allowedHostnames : gset string)
    (discoveredLinks : gset string) (h : string) : gset string :=
  if isSkippableScheme h then discoveredLinks
  else
    match normalizeHref h with
    | Some absolute =>
        if sameDomainOnly then
          match newURL absolute with
          | Some u =>
              if negb (bool_decide (hostname u ∈ allowedHostnames))
              then discoveredLinks
              else JS.add absolute discoveredLinks
          | None => discoveredLinks
          end
        else JS.add absolute discoveredLinks
    | None => discoveredLinks
    end.

Definition requestHandler (sameDomainOnly : bool) (allowedHostnames : gset string)
    (discoveredLinks : gset string) (pageLinks : list string) : gset string :=
  foldl (processLink sameDomainOnly allowedHostnames) discoveredLinks pageLinks.

Definition transformRequestFunction (sameDomainOnly : bool)
    (allowedHostnames : gset string) (req_url : string) : option string :=
  match newURL req_url with
  | Some u0 =>
      let u := clearHash u0 in
      let req_url := href u in
      if negb (bool_decide (protocol u = "http:")) &&
         negb (bool_decide (protocol u = "https:")) then None
      else if sameDomainOnly && negb (bool_decide (hostname u ∈ allowedHostnames))
      then None
      else Some req_url
  | None => None
  end.

(** The content of [links.txt], and the count that [main] logs. *)
Definition linksTxt (linksArray : list string) : string :=
  JS.join (String "010" EmptyString) linksArray.

Definition loggedCount (linksArray : list string) : nat := length linksArray.

(** [main] with [main().catch]: [parseStartUrls] exits with code 1 on an
    empty list; a rejection of the engine, of the data set or of a
    [writeFile] ends in [process.exit(1)]. *)
Definition main (env : ProcessEnv) (engine : Engine) (storage : Storage)
  : Outcome :=
  match parseStartUrls env with
  | inl _ => Exited 1
  | inr startUrls =>
      let sameDomainOnly := readSameDomainOnly env in
      let allowedHostnames := getAllowedHostnames startUrls in
      match engine startUrls with
      | Some visits =>
          let discoveredLinks :=
            foldl (requestHandler sameDomainOnly allowedHostnames) ∅ visits in
          let linksArray := sortedLinks discoveredLinks in
          if storage linksArray then Completed linksArray else Exited 1
      | None => Exited 1
      end
  end.

End Defs.
End Links.

(** ** A reference implementation of [URLApi]

  [SimpleURL] decomposes [scheme ":" ["//" host] path ["?" query]
  ["#" fragment]] textually.  The scheme is lower-cased, and so is the host
  of a special scheme; a special scheme needs ["//"] and gets the path
  ["/"] when none is written.  Strings with credentials, a port, an IPv6
  literal or a forbidden host code point are rejected, and nothing is
  percent-encoded or dot-segment resolved, and the input is read as it
  is, white space included: the instance agrees with the WHATWG parser on
  plain [scheme://host/path?query#fragment] strings in serialised form. *)

Module SimpleURL.

Record url := {
  scheme : string;
  host : option string;
  path : string;
  query : option string;
  fragment : option string;
}.

Fixpoint all_chars (P : ascii → bool) (s : string) : bool :=
  match s with
  | EmptyString => true
  | String c s' => P c && all_chars P s'
  end.

(** [cut c s]: the text before the first [c], and the text after it. *)
Fixpoint cut (c : ascii) (s : string) : string * option string :=
  match s with
  | EmptyString => (EmptyString, None)
  | String a s' =>
      if bool_decide (a = c) then (EmptyString, Some s')
      else let '(b, r) := cut c s' in (String a b, r)
  end.

(** [span c s]: the text before the first [c], and the rest from [c] on. *)
Fixpoint span (c : ascii) (s : string) : string * string :=
  match s with
  | EmptyString => (EmptyString, EmptyString)
  | String a s' =>
      if bool_decide (a = c) then (EmptyString, s)
      else let '(b, r) := span c s' in (String a b, r)
  end.

Definition is_alpha (c : ascii) : bool :=
  let n := nat_of_ascii c in
  ((65 <=? n) && (n <=? 90)) || ((97 <=? n) && (n <=? 122)).

Definition is_scheme_char (c : ascii) : bool :=
  let n := nat_of_ascii c in
  is_alpha c || ((48 <=? n) && (n <=? 57)) ||
  bool_decide (c = "+"%char) || bool_decide (c = "-"%char) ||
  bool_decide (c = "."%char).

Definition valid_scheme (s : string) : bool :=
  match s with
  | EmptyString => false
  | String c _ => is_alpha c && all_chars is_scheme_char s
  end.

Definition is_special (sch : string) : bool :=
  bool_decide (sch ∈ ["http"; "https"; "ftp"; "ws"; "wss"; "file"]).

(** The forbidden host code points, with ["%"] and the C0 controls. *)
Definition host_char_ok (c : ascii) : bool :=
  let n := nat_of_ascii c in
  (33 <=? n) && (n <=? 126) &&
  negb (bool_decide (c ∈ ["#"; "/"; ":"; "<"; ">"; "?"; "@"; "["; "\"; "]";
                          "^"; "|"; "%"]%char)).

Definition mk (sch : string) (h : option string) (p : string)
    (q f : option string) : url :=
  {| scheme := sch; host := h; path := p; query := q; fragment := f |}.

(** [s.slice(n)] *)
Fixpoint slice (n : nat) (s : string) : string :=
  match n, s with
  | S n', String _ s' => slice n' s'
  | _, _ => s
  end.

(** The hierarchical part [r2], between the scheme and the query. *)
Definition parse_hier (sch r2 : string) (qry frag : option string) : option url :=
  if JS.startsWith r2 "//" then
    let '(auth, pth) := span "/" (slice 2 r2) in
    if all_chars host_char_ok auth then
      if is_special sch then
        if bool_decide (auth = "") && negb (bool_decide (sch = "file"))
        then None
        else Some (mk sch (Some (JS.toLowerCase auth))
                     (if bool_decide (pth = "") then "/" else pth)
                     qry frag)
      else Some (mk sch (Some auth) pth qry frag)
    else None
  else if is_special sch then None
  else Some (mk sch None r2 qry frag).

Definition parse (s : string) : option url :=
  match cut ":" s with
  | (sch0, Some rest) =>
      if valid_scheme sch0 then
        let '(r1, frag) := cut "#" rest in
        let '(r2, qry) := cut "?" r1 in
        parse_hier (JS.toLowerCase sch0) r2 qry frag
      else None
  | (_, None) => None
  end.

Definition opt_prefixed (d : string) (o : option string) : string :=
  match o with
  | Some x => d +:+ x
  | None => ""
  end.

Definition serialize (u : url) : string :=
  scheme u +:+ ":" +:+ opt_prefixed "//" (host u) +:+ path u +:+
  opt_prefixed "?" (query u) +:+ opt_prefixed "#" (fragment u).

(** The shape of a parsed URL: what [parse] establishes and what
    [serialize] needs to be read back. *)
Definition nochar (c : ascii) (s : string) : bool :=
  all_chars (λ x, negb (bool_decide (x = c))) s.

Definition canonical_host (u : url) : bool :=
  match host u with
  | Some h =>
      all_chars host_char_ok h &&
      (bool_decide (path u = "") || JS.startsWith (path u) "/") &&
      (if is_special (scheme u) then
         bool_decide (JS.toLowerCase h = h) &&
         negb (bool_decide (path u = "")) &&
         negb (bool_decide (h = "") && negb (bool_decide (scheme u = "file")))
       else true)
  | None => negb (is_special (scheme u)) && negb (JS.startsWith (path u) "//")
  end.

Definition canonical (u : url) : bool :=
  valid_scheme (scheme u) &&
  bool_decide (JS.toLowerCase (scheme u) = scheme u) &&
  nochar "#" (path u) && nochar "?" (path u) &&
  match query u with Some q => nochar "#" q | None => true end &&
  canonical_host u.

#[global] Instance api : URLApi url := {|
  newURL := parse;
  href := serialize;
  protocol u := scheme u +:+ ":";
  hostname u := default "" (host u);
  pathname := path;
  clearHash u := mk (scheme u) (host u) (path u) (query u) None;
|}.

End SimpleURL.

(** ** A reference implementation that strips its input

  The WHATWG parser first removes the leading and trailing C0 controls and
  spaces of its input.  [TrimURL] does so and then reads the rest as
  [SimpleURL] does.  A path without a host keeps a space in front of the
  fragment, so [new URL("sms:abc #frag").href] is ["sms:abc #frag"] while
  [new URL("sms:abc ").href] is ["sms:abc"]. *)

Module TrimURL.

Definition is_c0_or_space (c : ascii) : bool := nat_of_ascii c <=? 32.

Fixpoint stripStart (s : string) : string :=
  match s with
  | EmptyString => EmptyString
  | String c s' => if is_c0_or_space c then stripStart s' else s
  end.

Fixpoint stripEnd (s : string) : string :=
  match s with
  | EmptyString => EmptyString
  | String c s' =>
      let t := stripEnd s' in
      if is_c0_or_space c && bool_decide (t = EmptyString) then EmptyString
      else String c t
  end.

Definition strip (s : string) : string := stripEnd (stripStart s).

Record url := Url { inner : SimpleURL.url }.

Definition parse (s : string) : option url := Url <$> SimpleURL.parse (strip s).

#[global] Instance api : URLApi url | 100 := {|
  newURL := parse;
  href u := SimpleURL.serialize (inner u);
  protocol u := protocol (inner u);
  hostname u := hostname (inner u);
  pathname u := pathname (inner u);
  clearHash u := Url (clearHash (inner u));
|}.

End TrimURL.

(** * Facts about the string primitives *)

Lemma str_app_cons (a : ascii) (s t : string) :
  String a s +:+ t = String a (s +:+ t).
Proof. reflexivity. Qed.

Lemma str_app_nil_r (s : string) : s +:+ "" = s.
Proof. induction s as [|a s IH]; [done|]. by rewrite str_app_cons, IH. Qed.

Lemma str_app_assoc (s t r : string) : (s +:+ t) +:+ r = s +:+ t +:+ r.
Proof.
  induction s as [|a s IH]; [done|]. by rewrite !str_app_cons, IH.
Qed.

Lemma startsWith_spec (s p : string) :
  JS.startsWith s p = true ↔ ∃ r, s = p +:+ r.
Proof.
  revert s. induction p as [|b p IH]; intros s; simpl.
  - split; [intros _; by exists s | done].
  - destruct s as [|a s].
    + split; [done | intros [r Hr]; by rewrite str_app_cons in Hr].
    + rewrite andb_true_iff, bool_decide_eq_true, IH. split.
      * intros [-> [r ->]]. by exists r.
      * intros [r Hr]. rewrite str_app_cons in Hr. simplify_eq. eauto.
Qed.

Lemma startsWith_refl (s : string) : JS.startsWith s s = true.
Proof. apply startsWith_spec. exists "". by rewrite str_app_nil_r. Qed.

Lemma endsWith_spec (s p : string) :
  JS.endsWith s p = true ↔ ∃ r, s = r +:+ p.
Proof.
  induction s as [|a s IH]; simpl.
  - rewrite orb_false_r, bool_decide_eq_true. split.
    + intros <-. by exists "".
    + intros [[|b r] Hr]; [done | by rewrite str_app_cons in Hr].
  - rewrite orb_true_iff, bool_decide_eq_true, IH. split.
    + intros [<- | [r ->]]; [by exists "" | by exists (String a r)].
    + intros [[|b r] Hr]; [by left | right].
      rewrite str_app_cons in Hr. simplify_eq. eauto.
Qed.

Lemma includes_spec (s t : string) :
  JS.includes s t = true ↔ ∃ a b, s = a +:+ t +:+ b.
Proof.
  induction s as [|c s IH]; simpl.
  - rewrite orb_false_r, startsWith_spec. split.
    + intros [r Hr]. by exists "", r.
    + intros [[|c a] [b Hb]]; [by exists b | by rewrite str_app_cons in Hb].
  - rewrite orb_true_iff, startsWith_spec, IH. split.
    + intros [[r Hr] | (a & b & ->)]; [by exists "", r | by exists (String c a), b].
    + intros [[|d a] [b Hb]]; [left; by exists b | right].
      rewrite str_app_cons in Hb. simplify_eq. eauto.
Qed.

Lemma lower_ascii_idemp (c : ascii) :
  JS.lower_ascii (JS.lower_ascii c) = JS.lower_ascii c.
Proof. by destruct c as [[] [] [] [] [] [] [] []]. Qed.

Lemma toLowerCase_idemp (s : string) :
  JS.toLowerCase (JS.toLowerCase s) = JS.toLowerCase s.
Proof.
  induction s as [|c s IH]; [done|]. simpl. by rewrite lower_ascii_idemp, IH.
Qed.

(** * The scope policy *)

Section ScopeFacts.
Context {URL : Type} `{!URLApi URL}.

Lemma normalizePathPrefix_starts (pathname : string) :
  JS.startsWith (Scoped.normalizePathPrefix pathname) "/" = true.
Proof.
  unfold Scoped.normalizePathPrefix.
  destruct (JS.truthy pathname); cbn [negb]; [|reflexivity].
  set (p := JS.trim pathname).
  destruct (JS.startsWith p "/") eqn:Hp; cbn [negb].
  - destruct (JS.endsWith p "/"); cbn [negb]; [done|].
    apply startsWith_spec in Hp as [r ->]. apply startsWith_spec.
    exists (r +:+ "/"). by rewrite str_app_assoc.
  - destruct (JS.endsWith ("/" +:+ p) "/"); cbn [negb];
      apply startsWith_spec; eexists; [|rewrite str_app_assoc]; reflexivity.
Qed.

Lemma normalizePathPrefix_ends (pathname : string) :
  JS.endsWith (Scoped.normalizePathPrefix pathname) "/" = true.
Proof.
  unfold Scoped.normalizePathPrefix.
  destruct (JS.truthy pathname); cbn [negb]; [|reflexivity].
  set (p := if negb (JS.startsWith (JS.trim pathname) "/") then _ else _).
  destruct (JS.endsWith p "/") eqn:Hp; cbn [negb]; [done|].
  apply endsWith_spec. by exists p.
Qed.

Lemma existsb_startsWith (np : string) (prefixes : list string) :
  existsb (λ p, JS.startsWith np p) prefixes = true ↔
  ∃ p r, p ∈ prefixes ∧ np = p +:+ r.
Proof.
  rewrite existsb_exists. split.
  - intros (p & Hin & Hp). apply startsWith_spec in Hp as [r Hr].
    exists p, r. by rewrite list_elem_of_In.
  - intros (p & r & Hin & Hr). exists p. rewrite <-list_elem_of_In.
    split; [done|]. apply startsWith_spec. by exists r.
Qed.

Lemma isInScope_true (u : URL) (sdo : bool) (allowed : gset string)
    (hp : gmap string (list string)) :
  Scoped.isInScope u sdo allowed hp = true ↔
    (sdo = true → hostname u ∈ allowed) ∧
    (∀ prefixes, hp !! hostname u = Some prefixes → prefixes ≠ [] →
       ∃ p r, p ∈ prefixes ∧
         Scoped.normalizePathPrefix (JS.or_else (pathname u) "/") = p +:+ r).
Proof.
  unfold Scoped.isInScope.
  destruct (sdo && negb (bool_decide (hostname u ∈ allowed))) eqn:Hhost.
  - apply andb_true_iff in Hhost as [-> Hout].
    apply negb_true_iff, bool_decide_eq_false in Hout.
    split; [done | intros [Hin _]; by destruct Hout; apply Hin].
  - assert (sdo = true → hostname u ∈ allowed) as Hin.
    { intros ->. simpl in Hhost.
      by apply negb_false_iff, bool_decide_eq_true in Hhost. }
    destruct (hp !! hostname u) as [prefixes|]; [|by split].
    destruct prefixes as [|p0 prefixes].
    + rewrite bool_decide_eq_false_2 by (simpl; lia).
      split; [|done]. intros _. split; [done|]. by intros ? [= <-].
    + rewrite bool_decide_eq_true_2 by (simpl; lia).
      rewrite existsb_startsWith. split.
      * intros Hex. split; [done|]. by intros ? [= <-] _.
      * intros [_ Hex]. by apply Hex.
Qed.

Lemma assetMatchesScope_true (u : URL) (T : gmap string (gset string)) :
  Scoped.assetMatchesScope u T = true ↔
    (∃ t a b, t ∈ default ∅ (T !! hostname u) ∧
       JS.toLowerCase (pathname u) = a +:+ t +:+ b) ∨
    default ∅ (T !! hostname u) = ∅.
Proof.
  unfold Scoped.assetMatchesScope.
  destruct (T !! hostname u) as [tokens|]; simpl; [|by split; [right|]].
  destruct (decide (size tokens = 0)) as [Hz|Hnz].
  - rewrite (bool_decide_eq_true_2 _ Hz). split; [intros _; right|done].
    by apply leibniz_equiv, size_empty_iff.
  - rewrite (bool_decide_eq_false_2 _ Hnz), existsb_exists. split.
    + intros (t & Hin & Hinc). left.
      apply includes_spec in Hinc as (a & b & Hab). exists t, a, b.
      split; [|done]. by apply elem_of_elements, list_elem_of_In.
    + intros [(t & a & b & Hin & Hab) | Hemp].
      * exists t. split; [by apply list_elem_of_In, elem_of_elements|].
        apply includes_spec. by exists a, b.
      * destruct Hnz. by rewrite Hemp, size_empty.
Qed.

Lemma withinHost_true (sdo : bool) (h : string) (allowed : gset string) :
  negb sdo || bool_decide (h ∈ allowed) = true ↔ (sdo = true → h ∈ allowed).
Proof.
  rewrite orb_true_iff, negb_true_iff, bool_decide_eq_true.
  destruct sdo; split; try done; [intros [|]; done | intros Hin; right; auto
    | by left].
Qed.

Lemma shouldRecord_asset (sc : Scoped.Scope) (u : URL) :
  Scoped.isLikelyBinaryAsset (pathname u) = true →
  Scoped.shouldRecord sc u =
    (negb (Scoped.sameDomainOnly sc) ||
       bool_decide (hostname u ∈ Scoped.allowedHostnames sc)) &&
    Scoped.assetMatchesScope u (Scoped.hostnameToScopeTokens sc).
Proof. unfold Scoped.shouldRecord. by intros ->. Qed.

Lemma shouldRecord_page (sc : Scoped.Scope) (u : URL) :
  Scoped.isLikelyBinaryAsset (pathname u) = false →
  Scoped.shouldRecord sc u =
    Scoped.isInScope u (Scoped.sameDomainOnly sc) (Scoped.allowedHostnames sc)
      (Scoped.hostnameToPrefixes sc).
Proof. unfold Scoped.shouldRecord. by intros ->. Qed.

Lemma processLink_parsed (sc : Scoped.Scope) (D : gset string) (h : string)
    (u : URL) :
  Scoped.parseLink h = Some u →
  Scoped.processLink sc D h =
    if Scoped.shouldRecord sc u then JS.add (href u) D else D.
Proof. unfold Scoped.processLink. by intros ->. Qed.

Lemma processLink_dropped (sc : Scoped.Scope) (D : gset string) (h : string) :
  Scoped.parseLink h = None → Scoped.processLink sc D h = D.
Proof. unfold Scoped.processLink. by intros ->. Qed.

Lemma transformRequestFunction_unfold (sc : Scoped.Scope) (req_url : string) :
  Scoped.transformRequestFunction sc req_url =
    match newURL req_url with
    | Some u0 =>
        let u := clearHash u0 in
        if (bool_decide (protocol u = "http:") ||
            bool_decide (protocol u = "https:")) &&
           Scoped.isInScope u (Scoped.sameDomainOnly sc)
             (Scoped.allowedHostnames sc) (Scoped.hostnameToPrefixes sc) &&
           negb (Scoped.isLikelyBinaryAsset (pathname u))
        then Some (href u) else None
    | None => None
    end.
Proof.
  unfold Scoped.transformRequestFunction.
  destruct (newURL req_url) as [u0|]; [|done]. cbv zeta.
  by destruct (bool_decide (protocol (clearHash u0) = "http:")),
    (bool_decide (protocol (clearHash u0) = "https:")),
    (Scoped.isInScope (clearHash u0) _ _ _),
    (Scoped.isLikelyBinaryAsset (pathname (clearHash u0))).
Qed.

Lemma transformRequestFunction_Some (sc : Scoped.Scope) (req_url r : string) :
  Scoped.transformRequestFunction sc req_url = Some r ↔
    ∃ u0, newURL req_url = Some u0 ∧
      r = href (clearHash u0) ∧
      (protocol (clearHash u0) = "http:" ∨ protocol (clearHash u0) = "https:") ∧
      Scoped.isInScope (clearHash u0) (Scoped.sameDomainOnly sc)
        (Scoped.allowedHostnames sc) (Scoped.hostnameToPrefixes sc) = true ∧
      Scoped.isLikelyBinaryAsset (pathname (clearHash u0)) = false.
Proof.
  rewrite transformRequestFunction_unfold.
  destruct (newURL req_url) as [u0|]; [|split; [done | by intros (? & ? & _)]].
  cbv zeta. match goal with |- context [if ?b then _ else _] => set (acc := b) end.
  assert (acc = true ↔
    (protocol (clearHash u0) = "http:" ∨ protocol (clearHash u0) = "https:") ∧
    Scoped.isInScope (clearHash u0) (Scoped.sameDomainOnly sc)
      (Scoped.allowedHostnames sc) (Scoped.hostnameToPrefixes sc) = true ∧
    Scoped.isLikelyBinaryAsset (pathname (clearHash u0)) = false) as Hacc.
  { unfold acc.
    by rewrite !andb_true_iff, orb_true_iff, !bool_decide_eq_true,
      negb_true_iff, (assoc (∧)). }
  destruct acc.
  - split.
    + intros [= <-]. exists u0. split; [done|]. split; [done|]. by apply Hacc.
    + by intros (? & [= <-] & -> & _).
  - split; [done|]. intros (? & [= <-] & _ & Hacc').
    by apply Hacc in Hacc'.
Qed.

(** ** The tables built from the seeds *)

Lemma getHostnameToPathPrefixes_snoc (seeds : list string) (s : string) :
  Scoped.getHostnameToPathPrefixes (seeds ++ [s]) =
  Scoped.addPrefix (Scoped.getHostnameToPathPrefixes seeds) s.
Proof. unfold Scoped.getHostnameToPathPrefixes. by rewrite foldl_snoc. Qed.

(** Every recorded prefix is the normalised path of a seed of that host,
    no prefix is recorded twice, and no entry is empty. *)
Lemma prefix_table_inv (seeds : list string) (h : string) (ps : list string) :
  Scoped.getHostnameToPathPrefixes seeds !! h = Some ps →
  NoDup ps ∧ ps ≠ [] ∧
  ∀ p, p ∈ ps →
    ∃ s x, s ∈ seeds ∧ newURL s = Some x ∧ hostname x = h ∧
      p = Scoped.normalizePathPrefix (JS.or_else (pathname x) "/").
Proof.
  revert h ps. induction seeds as [|s seeds IH] using rev_ind; intros h ps.
  { unfold Scoped.getHostnameToPathPrefixes. simpl. by rewrite lookup_empty. }
  rewrite getHostnameToPathPrefixes_snoc. unfold Scoped.addPrefix.
  destruct (newURL s) as [x|] eqn:Hx.
  2:{ intros Hps. destruct (IH _ _ Hps) as (Hnd & Hne & Hin).
      split; [done|]. split; [done|]. intros p Hp.
      destruct (Hin p Hp) as (s' & x' & ? & ?). exists s', x'.
      rewrite elem_of_app. auto. }
  set (prefix := Scoped.normalizePathPrefix (JS.or_else (pathname x) "/")).
  set (m := Scoped.getHostnameToPathPrefixes seeds) in *.
  destruct (decide (hostname x = h)) as [<-|Hne].
  - rewrite lookup_insert_eq. intros [= <-].
    assert (NoDup (default [] (m !! hostname x)) ∧
            ∀ p, p ∈ default [] (m !! hostname x) →
              ∃ s' x', s' ∈ seeds ++ [s] ∧ newURL s' = Some x' ∧
                hostname x' = hostname x ∧
                p = Scoped.normalizePathPrefix (JS.or_else (pathname x') "/"))
      as [Hnd Hin].
    { destruct (m !! hostname x) as [arr|] eqn:Harr; simpl.
      - destruct (IH _ _ Harr) as (Hnd & _ & Hin). split; [done|].
        intros p Hp. destruct (Hin p Hp) as (s' & x' & ? & ?).
        exists s', x'. rewrite elem_of_app. auto.
      - split; [constructor | by intros p ?%not_elem_of_nil]. }
    destruct (decide (prefix ∈ default [] (m !! hostname x))) as [Hp|Hp].
    + rewrite (bool_decide_eq_true_2 _ Hp). split; [done|].
      split; [by intros Hnil; rewrite Hnil in Hp; apply not_elem_of_nil in Hp|done].
    + rewrite (bool_decide_eq_false_2 _ Hp). split.
      { apply NoDup_app. split; [done|]. split; [|apply NoDup_singleton].
        by intros p ? ->%list_elem_of_singleton. }
      split; [by destruct (default [] (m !! hostname x))|].
      intros p [Hin'| ->%list_elem_of_singleton]%elem_of_app; [auto|].
      exists s, x. rewrite elem_of_app, list_elem_of_singleton. auto.
  - rewrite lookup_insert_ne by done. intros Hps.
    destruct (IH _ _ Hps) as (Hnd & Hnil & Hin).
    split; [done|]. split; [done|]. intros p Hp.
    destruct (Hin p Hp) as (s' & x' & ? & ?). exists s', x'.
    rewrite elem_of_app. auto.
Qed.

Lemma scope_tokens_lookup (hp : gmap string (list string)) (h : string) :
  Scoped.getHostnameToScopeTokens hp !! h =
  (λ prefixes, foldl Scoped.addToken ∅ prefixes) <$> hp !! h.
Proof. unfold Scoped.getHostnameToScopeTokens. apply lookup_fmap. Qed.

Lemma prefix_table_foreign_host (seeds : list string) (h : string) :
  (∀ s x, s ∈ seeds → newURL s = Some x → hostname x ≠ h) →
  Scoped.getHostnameToPathPrefixes seeds !! h = None.
Proof.
  intros Hforeign.
  destruct (Scoped.getHostnameToPathPrefixes seeds !! h) as [ps|] eqn:Hps; [|done].
  destruct (prefix_table_inv _ _ _ Hps) as (_ & Hne & Hin).
  destruct ps as [|p ps]; [done|].
  destruct (Hin p) as (s & x & Hs & Hx & Hh & _); [apply list_elem_of_here|].
  by destruct (Hforeign s x).
Qed.

End ScopeFacts.

(** * The discovery set *)

Lemma add_idemp (x : string) (D : gset string) : JS.add x (JS.add x D) = JS.add x D.
Proof. unfold JS.add. by rewrite (assoc_L (∪)), (idemp_L (∪)). Qed.

Lemma add_subseteq (x : string) (D : gset string) : D ⊆ JS.add x D.
Proof. unfold JS.add. set_solver. Qed.

Lemma elem_of_add (x y : string) (D : gset string) :
  y ∈ JS.add x D ↔ y = x ∨ y ∈ D.
Proof. unfold JS.add. set_solver. Qed.

Lemma foldl_subseteq {A : Type} (f : gset string → A → gset string)
    (l : list A) (D : gset string) :
  (∀ D' a, D' ⊆ f D' a) → D ⊆ foldl f D l.
Proof.
  intros Hf. revert D. induction l as [|a l IH]; intros D; simpl; [done|].
  etrans; [apply (Hf D a) | apply IH].
Qed.

Lemma sortedLinks_sorted (D : gset string) :
  StronglySorted String.le (sortedLinks D).
Proof. apply (StronglySorted_merge_sort String.le). Qed.

Lemma sortedLinks_perm (D : gset string) : sortedLinks D ≡ₚ elements D.
Proof. apply merge_sort_Permutation. Qed.

Lemma sortedLinks_NoDup (D : gset string) : NoDup (sortedLinks D).
Proof. rewrite sortedLinks_perm. apply NoDup_elements. Qed.

Lemma elem_of_sortedLinks (D : gset string) (x : string) :
  x ∈ sortedLinks D ↔ x ∈ D.
Proof. by rewrite sortedLinks_perm, elem_of_elements. Qed.

(** [String.le] is the lexicographic order on code units. *)
Lemma string_le_lexicographic :
  (∀ t, String.le "" t) ∧
  (∀ a s, ¬ String.le (String a s) "") ∧
  (∀ a s b t,
     String.le (String a s) (String b t) ↔
     (N_of_ascii a < N_of_ascii b)%N ∨ (a = b ∧ String.le s t)).
Proof.
  split; [by intros [|b t]|]. split; [intros a s Hle; exact Hle|].
  intros a s b t. unfold String.le, String.leb. simpl.
  destruct (Ascii.compare a b) eqn:Hab.
  - apply Ascii.compare_eq_iff in Hab as ->. split; [by right|].
    intros [Hlt|[_ Hle]]; [lia | done].
  - unfold Ascii.compare in Hab. apply N.compare_lt_iff in Hab.
    split; [by left | done].
  - unfold Ascii.compare in Hab. apply N.compare_gt_iff in Hab.
    split; [done|]. intros [Hlt|[-> _]]; lia.
Qed.

Section DiscoveryFacts.
Context {URL : Type} `{!URLApi URL}.

Lemma scoped_processLink_mono (sc : Scoped.Scope) (D : gset string) (h : string) :
  D ⊆ Scoped.processLink sc D h.
Proof.
  unfold Scoped.processLink. destruct (Scoped.parseLink h) as [u|]; [|done].
  destruct (Scoped.shouldRecord sc u); [apply add_subseteq | done].
Qed.

Lemma scoped_requestHandler_mono (sc : Scoped.Scope) (D : gset string)
    (pageLinks : list string) :
  D ⊆ Scoped.requestHandler sc D pageLinks.
Proof. apply foldl_subseteq, scoped_processLink_mono. Qed.

Lemma links_processLink_mono (sdo : bool) (allowed D : gset string) (h : string) :
  D ⊆ Links.processLink sdo allowed D h.
Proof.
  unfold Links.processLink. destruct (isSkippableScheme h); [done|].
  destruct (Links.normalizeHref h) as [absolute|]; [|done].
  destruct sdo; [|apply add_subseteq].
  destruct (newURL absolute) as [u|]; [|done].
  destruct (negb _); [done | apply add_subseteq].
Qed.

Lemma links_requestHandler_mono (sdo : bool) (allowed D : gset string)
    (pageLinks : list string) :
  D ⊆ Links.requestHandler sdo allowed D pageLinks.
Proof. apply foldl_subseteq, links_processLink_mono. Qed.

(** ** Links that fail to parse, and seeds that fail to parse *)

Lemma skippable_parseLink (h : string) :
  isSkippableScheme h = true → Scoped.parseLink h = None.
Proof. unfold Scoped.parseLink. by intros ->. Qed.

Lemma malformed_parseLink (h : string) :
  newURL h = None → Scoped.parseLink h = None.
Proof.
  unfold Scoped.parseLink, Scoped.normalizeHref. intros ->.
  by destruct (isSkippableScheme h).
Qed.

Lemma links_processLink_dropped (sdo : bool) (allowed D : gset string) (h : string) :
  isSkippableScheme h = true ∨ newURL h = None →
  Links.processLink sdo allowed D h = D.
Proof.
  unfold Links.processLink, Links.normalizeHref. intros [-> | ->]; [done|].
  by destruct (isSkippableScheme h).
Qed.

Lemma getAllowedHostnames_snoc (seeds : list string) (s : string) :
  getAllowedHostnames (seeds ++ [s]) =
  match newURL s with
  | Some x => JS.add (hostname x) (getAllowedHostnames seeds)
  | None => getAllowedHostnames seeds
  end.
Proof. unfold getAllowedHostnames. by rewrite foldl_snoc. Qed.

Lemma elem_of_getAllowedHostnames (seeds : list string) (h : string) :
  h ∈ getAllowedHostnames seeds ↔
  ∃ s x, s ∈ seeds ∧ newURL s = Some x ∧ hostname x = h.
Proof.
  induction seeds as [|s seeds IH] using rev_ind.
  { unfold getAllowedHostnames. simpl. split; [set_solver|].
    by intros (? & ? & ?%not_elem_of_nil & _). }
  rewrite getAllowedHostnames_snoc. split.
  - destruct (newURL s) as [x|] eqn:Hx.
    + intros [-> | Hin]%elem_of_add.
      * exists s, x. rewrite elem_of_app, list_elem_of_singleton. auto.
      * apply IH in Hin as (s' & x' & ? & ?). exists s', x'.
        rewrite elem_of_app. auto.
    + intros Hin. apply IH in Hin as (s' & x' & ? & ?). exists s', x'.
      rewrite elem_of_app. auto.
  - intros (s' & x' & [Hin | ->%list_elem_of_singleton]%elem_of_app & Hx' & Hh).
    + assert (h ∈ getAllowedHostnames seeds) by (apply IH; eauto).
      destruct (newURL s); [apply elem_of_add; auto | done].
    + rewrite Hx'. apply elem_of_add. auto.
Qed.

Lemma getAllowedHostnames_malformed (seeds1 seeds2 : list string) (s : string) :
  newURL s = None →
  getAllowedHostnames (seeds1 ++ s :: seeds2) = getAllowedHostnames (seeds1 ++ seeds2).
Proof.
  intros Hs. unfold getAllowedHostnames. rewrite !foldl_app. simpl. by rewrite Hs.
Qed.

Lemma getHostnameToPathPrefixes_malformed (seeds1 seeds2 : list string) (s : string) :
  newURL s = None →
  Scoped.getHostnameToPathPrefixes (seeds1 ++ s :: seeds2) =
  Scoped.getHostnameToPathPrefixes (seeds1 ++ seeds2).
Proof.
  intros Hs. unfold Scoped.getHostnameToPathPrefixes. rewrite !foldl_app. simpl.
  unfold Scoped.addPrefix at 2. by rewrite Hs.
Qed.

End DiscoveryFacts.

(** * The reference URL implementation obeys the laws *)

Lemma all_chars_app (P : ascii → bool) (a b : string) :
  SimpleURL.all_chars P (a +:+ b) = SimpleURL.all_chars P a && SimpleURL.all_chars P b.
Proof.
  induction a as [|c a IH]; [done|].
  rewrite str_app_cons. simpl. by rewrite IH, andb_assoc.
Qed.

Lemma all_chars_impl (P Q : ascii → bool) (s : string) :
  (∀ c, P c = true → Q c = true) →
  SimpleURL.all_chars P s = true → SimpleURL.all_chars Q s = true.
Proof.
  intros HPQ. induction s as [|c s IH]; [done|]. simpl.
  rewrite !andb_true_iff. intros [Hc Hs]. auto.
Qed.

Lemma all_chars_lower (P : ascii → bool) (s : string) :
  (∀ c, P (JS.lower_ascii c) = P c) →
  SimpleURL.all_chars P (JS.toLowerCase s) = SimpleURL.all_chars P s.
Proof.
  intros HP. induction s as [|c s IH]; [done|]. simpl. by rewrite HP, IH.
Qed.

Lemma nochar_app (c : ascii) (a b : string) :
  SimpleURL.nochar c (a +:+ b) = SimpleURL.nochar c a && SimpleURL.nochar c b.
Proof. apply all_chars_app. Qed.

Lemma nochar_cons (c x : ascii) (s : string) :
  SimpleURL.nochar c (String x s) = negb (bool_decide (x = c)) && SimpleURL.nochar c s.
Proof. reflexivity. Qed.

(** [cut] splits at the first separator, and is determined by it. *)
Lemma cut_spec (c : ascii) (s a : string) (r : option string) :
  SimpleURL.cut c s = (a, r) →
  SimpleURL.nochar c a = true ∧ s = a +:+ SimpleURL.opt_prefixed (String c "") r.
Proof.
  revert a r. induction s as [|x s IH]; intros a r; simpl.
  - by intros [= <- <-].
  - destruct (decide (x = c)) as [->|Hx].
    + rewrite bool_decide_eq_true_2 by done. by intros [= <- <-].
    + rewrite bool_decide_eq_false_2 by done.
      destruct (SimpleURL.cut c s) as [b r'] eqn:Hcut. intros [= <- <-].
      destruct (IH _ _ eq_refl) as [Hb Hs]. split.
      * by rewrite nochar_cons, bool_decide_eq_false_2, Hb.
      * by rewrite str_app_cons, <-Hs.
Qed.

Lemma cut_app (c : ascii) (a : string) (r : option string) :
  SimpleURL.nochar c a = true →
  SimpleURL.cut c (a +:+ SimpleURL.opt_prefixed (String c "") r) = (a, r).
Proof.
  induction a as [|x a IH]; intros Ha.
  - destruct r as [b|]; simpl; [|done].
    by rewrite bool_decide_eq_true_2.
  - rewrite nochar_cons in Ha. apply andb_true_iff in Ha as [Hx Ha].
    apply negb_true_iff in Hx. rewrite str_app_cons. simpl.
    by rewrite Hx, IH.
Qed.

Lemma cut_app_some (c : ascii) (a b : string) :
  SimpleURL.nochar c a = true →
  SimpleURL.cut c (a +:+ String c "" +:+ b) = (a, Some b).
Proof. apply (cut_app c a (Some b)). Qed.

Lemma span_spec (c : ascii) (s a r : string) :
  SimpleURL.span c s = (a, r) →
  SimpleURL.nochar c a = true ∧ s = a +:+ r ∧
  bool_decide (r = "") || JS.startsWith r (String c "") = true.
Proof.
  revert a r. induction s as [|x s IH]; intros a r; simpl.
  - by intros [= <- <-].
  - destruct (decide (x = c)) as [->|Hx].
    + rewrite bool_decide_eq_true_2 by done. intros [= <- <-].
      split; [done|]. split; [done|]. simpl.
      by rewrite bool_decide_eq_true_2.
    + rewrite bool_decide_eq_false_2 by done.
      destruct (SimpleURL.span c s) as [b r'] eqn:Hspan. intros [= <- <-].
      destruct (IH _ _ eq_refl) as (Hb & Hs & Hr). split; [|split; [|done]].
      * by rewrite nochar_cons, bool_decide_eq_false_2, Hb.
      * by rewrite str_app_cons, <-Hs.
Qed.

Lemma span_app (c : ascii) (a r : string) :
  SimpleURL.nochar c a = true →
  bool_decide (r = "") || JS.startsWith r (String c "") = true →
  SimpleURL.span c (a +:+ r) = (a, r).
Proof.
  intros Ha Hr. induction a as [|x a IH].
  - destruct r as [|y r]; [done|]. simpl in Hr.
    rewrite andb_true_r in Hr. apply bool_decide_eq_true in Hr as ->.
    simpl. by rewrite bool_decide_eq_true_2.
  - rewrite nochar_cons in Ha. apply andb_true_iff in Ha as [Hx Ha].
    apply negb_true_iff in Hx. rewrite str_app_cons. simpl.
    by rewrite Hx, IH.
Qed.

Lemma split_cut (c : ascii) (s : string) :
  ∃ t, JS.split c s = (SimpleURL.cut c s).1 :: t.
Proof.
  induction s as [|x s [t IH]]; simpl; [by exists []|].
  destruct (bool_decide (x = c)); [by eexists|].
  rewrite IH. destruct (SimpleURL.cut c s). by eexists.
Qed.

Lemma split0_cut (c : ascii) (s : string) :
  JS.split0 c s = (SimpleURL.cut c s).1.
Proof. unfold JS.split0. by destruct (split_cut c s) as [t ->]. Qed.

Ltac each_ascii c := destruct c as [[] [] [] [] [] [] [] []]; vm_compute; reflexivity.

Lemma is_alpha_lower (c : ascii) :
  SimpleURL.is_alpha (JS.lower_ascii c) = SimpleURL.is_alpha c.
Proof. each_ascii c. Qed.

Lemma is_scheme_char_lower (c : ascii) :
  SimpleURL.is_scheme_char (JS.lower_ascii c) = SimpleURL.is_scheme_char c.
Proof. each_ascii c. Qed.

Lemma host_char_ok_lower (c : ascii) :
  SimpleURL.host_char_ok (JS.lower_ascii c) = SimpleURL.host_char_ok c.
Proof. each_ascii c. Qed.

Lemma scheme_char_no_delim (c : ascii) :
  SimpleURL.is_scheme_char c &&
  (bool_decide (c = ":"%char) || bool_decide (c = "#"%char)) = false.
Proof. each_ascii c. Qed.

Lemma host_char_no_delim (c : ascii) :
  SimpleURL.host_char_ok c &&
  (bool_decide (c = "/"%char) || bool_decide (c = "?"%char) ||
   bool_decide (c = "#"%char)) = false.
Proof. each_ascii c. Qed.

Lemma scheme_nochar (s : string) (d : ascii) :
  d = ":"%char ∨ d = "#"%char →
  SimpleURL.all_chars SimpleURL.is_scheme_char s = true → SimpleURL.nochar d s = true.
Proof.
  intros Hd. apply all_chars_impl. intros c Hc.
  pose proof (scheme_char_no_delim c) as Hno. rewrite Hc in Hno. simpl in Hno.
  apply orb_false_iff in Hno as [H1 H2]. by destruct Hd as [-> | ->]; rewrite ?H1, ?H2.
Qed.

Lemma host_nochar (s : string) (d : ascii) :
  d = "/"%char ∨ d = "?"%char ∨ d = "#"%char →
  SimpleURL.all_chars SimpleURL.host_char_ok s = true → SimpleURL.nochar d s = true.
Proof.
  intros Hd. apply all_chars_impl. intros c Hc.
  pose proof (host_char_no_delim c) as Hno. rewrite Hc in Hno. simpl in Hno.
  apply orb_false_iff in Hno as [[H1 H2]%orb_false_iff H3].
  by destruct Hd as [-> | [-> | ->]]; rewrite ?H1, ?H2, ?H3.
Qed.

Lemma valid_scheme_lower (s : string) :
  SimpleURL.valid_scheme (JS.toLowerCase s) = SimpleURL.valid_scheme s.
Proof.
  destruct s as [|c s]; [done|]. cbn [JS.toLowerCase SimpleURL.valid_scheme].
  rewrite is_alpha_lower. f_equal.
  apply (all_chars_lower _ (String c s)), is_scheme_char_lower.
Qed.

Lemma valid_scheme_chars (s : string) :
  SimpleURL.valid_scheme s = true →
  SimpleURL.all_chars SimpleURL.is_scheme_char s = true.
Proof.
  destruct s as [|c s]; [done|]. unfold SimpleURL.valid_scheme.
  by intros [_ ?]%andb_true_iff.
Qed.

Lemma toLowerCase_nil (s : string) : JS.toLowerCase s = "" ↔ s = "".
Proof. by destruct s. Qed.

Lemma startsWith_slice2 (s : string) :
  JS.startsWith s "//" = true → s = "//" +:+ SimpleURL.slice 2 s.
Proof.
  intros [r ->]%startsWith_spec. reflexivity.
Qed.

Ltac split_andb :=
  repeat match goal with
         | |- _ && _ = true => apply andb_true_intro; split
         end.

Ltac destruct_andb :=
  repeat match goal with
         | H : _ && _ = true |- _ => apply andb_true_iff in H as [? ?]
         end.

Lemma parse_canonical (s : string) (u : SimpleURL.url) :
  SimpleURL.parse s = Some u → SimpleURL.canonical u = true.
Proof.
  unfold SimpleURL.parse.
  destruct (SimpleURL.cut ":" s) as [sch0 [rest|]] eqn:Hc1; [|done].
  destruct (SimpleURL.valid_scheme sch0) eqn:Hv; [|done].
  destruct (SimpleURL.cut "#" rest) as [r1 frag] eqn:Hc2.
  destruct (SimpleURL.cut "?" r1) as [r2 qry] eqn:Hc3.
  apply cut_spec in Hc2 as [Hr1 _]. apply cut_spec in Hc3 as [Hr2 ->].
  rewrite nochar_app in Hr1. apply andb_true_iff in Hr1 as [Hr2' Hq].
  assert (match qry with Some q => SimpleURL.nochar "#" q | None => true end = true)
    as Hqry.
  { destruct qry as [q|]; [|done]. simpl in Hq.
    rewrite nochar_app in Hq. by apply andb_true_iff in Hq as [_ ?]. }
  assert (SimpleURL.valid_scheme (JS.toLowerCase sch0) = true) as Hv'
    by by rewrite valid_scheme_lower.
  unfold SimpleURL.parse_hier.
  destruct (JS.startsWith r2 "//") eqn:Hss.
  - destruct (SimpleURL.span "/" (SimpleURL.slice 2 r2)) as [auth pth] eqn:Hsp.
    apply span_spec in Hsp as (Ha & Hsl & Hp).
    apply startsWith_slice2 in Hss. rewrite Hsl in Hss. rewrite Hss in Hr2, Hr2'.
    rewrite !nochar_app in Hr2, Hr2'. destruct_andb.
    destruct (SimpleURL.all_chars SimpleURL.host_char_ok auth) eqn:Hok; [|done].
    destruct (SimpleURL.is_special (JS.toLowerCase sch0)) eqn:Hsp.
    + destruct (bool_decide (auth = "") && _) eqn:Hempty; [done|].
      intros [= <-]. unfold SimpleURL.canonical, SimpleURL.canonical_host.
      cbn [SimpleURL.scheme SimpleURL.host SimpleURL.path SimpleURL.query
           SimpleURL.mk].
      rewrite Hsp, Hv', Hqry, !toLowerCase_idemp, all_chars_lower, Hok
        by apply host_char_ok_lower.
      replace (bool_decide (JS.toLowerCase auth = ""))
        with (bool_decide (auth = ""))
        by (apply bool_decide_ext; by rewrite toLowerCase_nil).
      rewrite Hempty.
      rewrite (bool_decide_eq_true_2 (_ = JS.toLowerCase auth)),
        (bool_decide_eq_true_2 (_ = JS.toLowerCase sch0)) by done.
      destruct (decide (pth = "")) as [->|Hne].
      * reflexivity.
      * rewrite !(bool_decide_eq_false_2 (pth = "")) by done.
        rewrite (bool_decide_eq_false_2 (pth = "")), orb_false_l in Hp by done.
        rewrite Hp. cbn [orb negb andb]. by split_andb.
    + intros [= <-]. unfold SimpleURL.canonical, SimpleURL.canonical_host.
      cbn [SimpleURL.scheme SimpleURL.host SimpleURL.path SimpleURL.query
           SimpleURL.mk].
      rewrite Hsp, Hv', Hqry, toLowerCase_idemp, Hok, Hp.
      rewrite !bool_decide_eq_true_2 by done. cbn [andb]. by split_andb.
  - destruct (SimpleURL.is_special (JS.toLowerCase sch0)) eqn:Hsp; [done|].
    intros [= <-]. unfold SimpleURL.canonical, SimpleURL.canonical_host.
    cbn [SimpleURL.scheme SimpleURL.host SimpleURL.path SimpleURL.query
         SimpleURL.mk].
    rewrite Hsp, Hv', Hqry, toLowerCase_idemp, Hss, Hr2, Hr2'.
    by rewrite !bool_decide_eq_true_2.
Qed.

Lemma nochar_opt_prefixed (c d : ascii) (o : option string) :
  c ≠ d →
  match o with Some x => SimpleURL.nochar c x | None => true end = true →
  SimpleURL.nochar c (SimpleURL.opt_prefixed (String d "") o) = true.
Proof.
  intros Hcd Ho. destruct o as [x|]; [|done]. simpl.
  by rewrite nochar_app, Ho, nochar_cons, bool_decide_eq_false_2.
Qed.

Lemma parse_serialized (sch B : string) (q f : option string) :
  SimpleURL.valid_scheme sch = true →
  SimpleURL.nochar "#" B = true → SimpleURL.nochar "?" B = true →
  match q with Some x => SimpleURL.nochar "#" x | None => true end = true →
  SimpleURL.parse
    (sch +:+ ":" +:+ B +:+ SimpleURL.opt_prefixed "?" q +:+
       SimpleURL.opt_prefixed "#" f) =
  SimpleURL.parse_hier (JS.toLowerCase sch) B q f.
Proof.
  intros Hv HB1 HB2 Hq. unfold SimpleURL.parse.
  rewrite cut_app_some by by apply scheme_nochar, valid_scheme_chars; [left|].
  rewrite Hv, <-(str_app_assoc B), cut_app.
  2:{ rewrite nochar_app, HB1. by apply (nochar_opt_prefixed "#" "?"). }
  by rewrite cut_app.
Qed.

Lemma serialize_parts (u : SimpleURL.url) :
  SimpleURL.serialize u =
  SimpleURL.scheme u +:+ ":" +:+
    (SimpleURL.opt_prefixed "//" (SimpleURL.host u) +:+ SimpleURL.path u) +:+
    SimpleURL.opt_prefixed "?" (SimpleURL.query u) +:+
    SimpleURL.opt_prefixed "#" (SimpleURL.fragment u).
Proof. unfold SimpleURL.serialize. by rewrite str_app_assoc. Qed.

Lemma canonical_hier (u : SimpleURL.url) :
  SimpleURL.canonical u = true →
  SimpleURL.nochar "#"
    (SimpleURL.opt_prefixed "//" (SimpleURL.host u) +:+ SimpleURL.path u) = true ∧
  SimpleURL.nochar "?"
    (SimpleURL.opt_prefixed "//" (SimpleURL.host u) +:+ SimpleURL.path u) = true.
Proof.
  unfold SimpleURL.canonical, SimpleURL.canonical_host. intros Hu.
  destruct_andb. rewrite !nochar_app.
  destruct (SimpleURL.host u) as [h|]; simpl; [|by split_andb].
  destruct_andb.
  rewrite !nochar_app, !(host_nochar h) by auto. by split_andb.
Qed.

Lemma canonical_reparse (u : SimpleURL.url) :
  SimpleURL.canonical u = true → SimpleURL.parse (SimpleURL.serialize u) = Some u.
Proof.
  intros Hu. destruct (canonical_hier u Hu) as [HB1 HB2]. revert Hu.
  unfold SimpleURL.canonical. intros Hu. destruct_andb.
  rewrite serialize_parts, parse_serialized by done.
  match goal with H : bool_decide _ = true |- _ =>
    apply bool_decide_eq_true in H as -> end.
  unfold SimpleURL.parse_hier.
  destruct u as [sch [h|] p q f]; unfold SimpleURL.canonical_host in *;
    cbn [SimpleURL.scheme SimpleURL.host SimpleURL.path SimpleURL.query
         SimpleURL.fragment SimpleURL.opt_prefixed] in *; destruct_andb.
  - rewrite str_app_assoc.
    change (JS.startsWith ("//" +:+ h +:+ p) "//") with true.
    change (SimpleURL.slice 2 ("//" +:+ h +:+ p)) with (h +:+ p).
    rewrite span_app; [|by apply host_nochar; [left|]|done].
    match goal with H : SimpleURL.all_chars _ h = true |- _ => rewrite H end.
    destruct (SimpleURL.is_special sch); [|done]. destruct_andb.
    repeat match goal with
           | H : bool_decide _ = true |- _ => apply bool_decide_eq_true in H
           | H : negb _ = true |- _ => apply negb_true_iff in H
           end.
    match goal with H : bool_decide (h = "") && _ = false |- _ => rewrite H end.
    match goal with H : bool_decide (p = "") = false |- _ => rewrite H end.
    by match goal with H : JS.toLowerCase h = h |- _ => rewrite H end.
  - repeat match goal with
           | H : negb _ = true |- _ => apply negb_true_iff in H
           end.
    change ("" +:+ p) with p.
    by match goal with
       | H1 : JS.startsWith p "//" = false,
         H2 : SimpleURL.is_special sch = false |- _ => rewrite H1, H2
       end.
Qed.

Lemma canonical_split0 (u : SimpleURL.url) :
  SimpleURL.canonical u = true →
  JS.split0 "#" (SimpleURL.serialize u) = SimpleURL.serialize (clearHash u).
Proof.
  intros Hu. destruct (canonical_hier u Hu) as [HB1 _]. revert Hu.
  unfold SimpleURL.canonical. intros Hu. destruct_andb.
  rewrite split0_cut.
  assert (SimpleURL.serialize u =
          SimpleURL.serialize (clearHash u) +:+
            SimpleURL.opt_prefixed "#" (SimpleURL.fragment u)) as ->.
  { unfold SimpleURL.serialize. cbn. by rewrite str_app_nil_r, !str_app_assoc. }
  rewrite cut_app; [done|].
  rewrite serialize_parts. cbn.
  do 3 rewrite nochar_app. rewrite HB1, str_app_nil_r. split_andb; try done.
  - by apply scheme_nochar, valid_scheme_chars; [right|].
  - by apply (nochar_opt_prefixed "#" "?").
Qed.

Lemma canonical_clearHash (u : SimpleURL.url) :
  SimpleURL.canonical u = true → SimpleURL.canonical (clearHash u) = true.
Proof. done. Qed.

Lemma SimpleURL_laws : URLLaws SimpleURL.url.
Proof.
  split.
  - intros s u Hu. apply canonical_split0. by apply (parse_canonical s).
  - intros s u Hu. apply canonical_reparse, canonical_clearHash.
    by apply (parse_canonical s).
  - done.
Qed.

#[global] Existing Instance SimpleURL_laws.

(** The laws do not survive the stripping of the input: the text in front
    of the fragment of ["sms:abc #frag"] ends in a space, which is removed
    when that text is parsed. *)
Lemma TrimURL_breaks_laws : ¬ URLLaws TrimURL.url.
Proof.
  intros [_ Hreparse _].
  specialize (Hreparse "sms:abc #frag"
                (TrimURL.Url (SimpleURL.mk "sms" None "abc " None (Some "frag")))).
  vm_compute in Hreparse. specialize (Hreparse eq_refl). discriminate.
Qed.

(** * Normalisation under the laws of [URL] *)

Lemma split_head_no_sep (c : ascii) (s : string) :
  JS.includes (JS.split0 c s) (String c "") = false.
Proof.
  unfold JS.split0.
  assert (∃ h t, JS.split c s = h :: t ∧ JS.includes h (String c "") = false)
    as (h & t & -> & Hh); [|done].
  induction s as [|x s (h & t & Hs & Hh)]; simpl; [by exists "", []|].
  destruct (decide (x = c)) as [->|Hx].
  - rewrite bool_decide_eq_true_2 by done. by exists "", (JS.split c s).
  - rewrite bool_decide_eq_false_2, Hs by done. exists (String x h), t.
    split; [done|]. simpl. by rewrite bool_decide_eq_false_2, Hh.
Qed.

Section NormalizerFacts.
Context {URL : Type} `{!URLApi URL} `{!URLLaws URL}.

Lemma scoped_normalizeHref_parsed (h : string) (u0 : URL) :
  newURL h = Some u0 → Scoped.normalizeHref h = Some (clearHash u0).
Proof.
  intros Hu0. unfold Scoped.normalizeHref. rewrite Hu0. cbv zeta.
  rewrite (split_hash_href h u0 Hu0). by apply (reparse_clearHash h).
Qed.

Lemma scoped_normalizeHref_inv (h : string) (u : URL) :
  Scoped.normalizeHref h = Some u → ∃ u0, newURL h = Some u0 ∧ u = clearHash u0.
Proof.
  intros Hu. destruct (newURL h) as [u0|] eqn:Hu0.
  - exists u0. split; [done|].
    rewrite (scoped_normalizeHref_parsed h u0 Hu0) in Hu. by injection Hu.
  - unfold Scoped.normalizeHref in Hu. by rewrite Hu0 in Hu.
Qed.

Lemma links_normalizeHref_parsed (h : string) (u0 : URL) :
  newURL h = Some u0 → Links.normalizeHref h = Some (href (clearHash u0)).
Proof.
  intros Hu0. unfold Links.normalizeHref.
  by rewrite Hu0, (split_hash_href h u0 Hu0).
Qed.

Lemma href_clearHash_no_hash (h : string) (u0 : URL) :
  newURL h = Some u0 → JS.includes (href (clearHash u0)) "#" = false.
Proof.
  intros Hu0. rewrite <-(split_hash_href h u0 Hu0). apply split_head_no_sep.
Qed.

End NormalizerFacts.

(** * The scoped normaliser on [TrimURL]

  Stripping the input breaks the laws above, but not the second parse of
  the scoped crawler: the [href] of a parsed URL starts with its scheme and
  ends as the stripped input does, or in a delimiter, so it parses back to
  the same URL. *)

Lemma is_alpha_not_c0 (c : ascii) :
  SimpleURL.is_alpha c && TrimURL.is_c0_or_space c = false.
Proof. each_ascii c. Qed.

Lemma stripEnd_idemp (s : string) :
  TrimURL.stripEnd (TrimURL.stripEnd s) = TrimURL.stripEnd s.
Proof.
  induction s as [|c s IH]; [done|]. simpl.
  destruct (TrimURL.is_c0_or_space c && bool_decide (TrimURL.stripEnd s = ""))
    eqn:Hc; [done|].
  simpl. by rewrite IH, Hc.
Qed.

Lemma stripEnd_app (a b : string) :
  TrimURL.stripEnd b ≠ "" →
  TrimURL.stripEnd (a +:+ b) = a +:+ TrimURL.stripEnd b.
Proof.
  intros Hb. induction a as [|c a IH]; [done|].
  rewrite !str_app_cons. cbn [TrimURL.stripEnd]. rewrite IH.
  rewrite (bool_decide_eq_false_2 (a +:+ TrimURL.stripEnd b = "")),
    andb_false_r; [done|].
  by destruct a.
Qed.

Lemma stripEnd_keep (a b : string) :
  b ≠ "" → TrimURL.stripEnd b = b → TrimURL.stripEnd (a +:+ b) = a +:+ b.
Proof. intros Hne Hb. rewrite stripEnd_app; rewrite Hb; done. Qed.

Lemma stripEnd_suffix (a b : string) :
  b ≠ "" → TrimURL.stripEnd (a +:+ b) = a +:+ b → TrimURL.stripEnd b = b.
Proof.
  intros Hne. induction a as [|c a IH]; [done|].
  rewrite !str_app_cons. cbn [TrimURL.stripEnd].
  destruct (TrimURL.is_c0_or_space c && _); [done|].
  intros [= Ha]. by apply IH.
Qed.

Lemma stripEnd_swap (a a' b : string) :
  b ≠ "" → TrimURL.stripEnd (a +:+ b) = a +:+ b →
  TrimURL.stripEnd (a' +:+ b) = a' +:+ b.
Proof. intros Hne Hb. by apply stripEnd_keep, (stripEnd_suffix a). Qed.

(** The query and the fragment are copied from the input, so the part in
    front of them decides the end only when both are absent. *)
Lemma stripEnd_tail (X X' : string) (q f : option string) :
  TrimURL.stripEnd
    (X +:+ SimpleURL.opt_prefixed "?" q +:+ SimpleURL.opt_prefixed "#" f) =
    X +:+ SimpleURL.opt_prefixed "?" q +:+ SimpleURL.opt_prefixed "#" f →
  (q = None → f = None → TrimURL.stripEnd X = X → TrimURL.stripEnd X' = X') →
  TrimURL.stripEnd
    (X' +:+ SimpleURL.opt_prefixed "?" q +:+ SimpleURL.opt_prefixed "#" f) =
    X' +:+ SimpleURL.opt_prefixed "?" q +:+ SimpleURL.opt_prefixed "#" f.
Proof.
  destruct f as [f|]; cbn [SimpleURL.opt_prefixed].
  - intros Hs _. rewrite <-!(str_app_assoc _ _ ("#" +:+ f)) in *.
    by apply (stripEnd_swap (X +:+ SimpleURL.opt_prefixed "?" q)).
  - rewrite !str_app_nil_r. destruct q as [q|]; cbn [SimpleURL.opt_prefixed].
    + intros Hs _. by apply (stripEnd_swap X).
    + rewrite !str_app_nil_r. intros Hs HX. by apply HX.
Qed.

Lemma parse_stripEnd (s : string) (u : SimpleURL.url) :
  SimpleURL.parse s = Some u → TrimURL.stripEnd s = s →
  TrimURL.stripEnd (SimpleURL.serialize u) = SimpleURL.serialize u.
Proof.
  unfold SimpleURL.parse.
  destruct (SimpleURL.cut ":" s) as [sch0 [rest|]] eqn:Hc1; [|done].
  destruct (SimpleURL.valid_scheme sch0); [|done].
  destruct (SimpleURL.cut "#" rest) as [r1 frag] eqn:Hc2.
  destruct (SimpleURL.cut "?" r1) as [r2 qry] eqn:Hc3.
  apply cut_spec in Hc1 as [_ ->]. apply cut_spec in Hc2 as [_ ->].
  apply cut_spec in Hc3 as [_ ->]. cbn [SimpleURL.opt_prefixed].
  rewrite (str_app_assoc r2). intros Hu Hs.
  apply (stripEnd_suffix sch0) in Hs; [|done].
  assert (∀ sch h p,
            u = SimpleURL.mk sch h p qry frag →
            (TrimURL.stripEnd (":" +:+ r2) = ":" +:+ r2 →
             TrimURL.stripEnd (":" +:+ SimpleURL.opt_prefixed "//" h +:+ p) =
               ":" +:+ SimpleURL.opt_prefixed "//" h +:+ p) →
            TrimURL.stripEnd (SimpleURL.serialize u) = SimpleURL.serialize u)
    as Hgoal.
  { intros sch h p -> Hhier. unfold SimpleURL.serialize.
    cbn [SimpleURL.scheme SimpleURL.host SimpleURL.path SimpleURL.query
         SimpleURL.fragment SimpleURL.mk].
    apply stripEnd_keep; [done|].
    rewrite <-(str_app_assoc (SimpleURL.opt_prefixed "//" h) p).
    rewrite <-(str_app_assoc ":" (SimpleURL.opt_prefixed "//" h +:+ p)).
    apply (stripEnd_tail (":" +:+ r2)).
    - by rewrite (str_app_assoc ":" r2).
    - intros _ _. exact Hhier. }
  revert Hu. unfold SimpleURL.parse_hier.
  destruct (JS.startsWith r2 "//") eqn:Hss.
  - destruct (SimpleURL.span "/" (SimpleURL.slice 2 r2)) as [auth pth] eqn:Hsp.
    apply span_spec in Hsp as (_ & Hsl & _).
    apply startsWith_slice2 in Hss. rewrite Hsl in Hss.
    destruct (SimpleURL.all_chars SimpleURL.host_char_ok auth); [|done].
    destruct (SimpleURL.is_special (JS.toLowerCase sch0)).
    + destruct (bool_decide (auth = "") && _); [done|].
      intros [= Hu]. apply (Hgoal _ _ _ (eq_sym Hu)).
      rewrite Hss. cbn [SimpleURL.opt_prefixed].
      destruct (decide (pth = "")) as [->|Hne].
      * intros _. rewrite bool_decide_eq_true_2 by done.
        rewrite <-!str_app_assoc. by apply stripEnd_keep.
      * rewrite (bool_decide_eq_false_2 (pth = "")) by done.
        rewrite <-!str_app_assoc. by apply stripEnd_swap.
    + intros [= Hu]. apply (Hgoal _ _ _ (eq_sym Hu)).
      rewrite Hss. cbn [SimpleURL.opt_prefixed]. by rewrite !str_app_assoc.
  - destruct (SimpleURL.is_special (JS.toLowerCase sch0)); [done|].
    intros [= Hu]. by apply (Hgoal _ _ _ (eq_sym Hu)).
Qed.

Lemma serialize_stripStart (u : SimpleURL.url) :
  SimpleURL.canonical u = true →
  TrimURL.stripStart (SimpleURL.serialize u) = SimpleURL.serialize u.
Proof.
  unfold SimpleURL.canonical. intros Hu. destruct_andb.
  unfold SimpleURL.serialize.
  destruct (SimpleURL.scheme u) as [|c sch]; [done|].
  rewrite str_app_cons. cbn [TrimURL.stripStart].
  match goal with H : SimpleURL.valid_scheme _ = true |- _ =>
    apply andb_true_iff in H as [Hc _] end.
  pose proof (is_alpha_not_c0 c) as Hno. rewrite Hc in Hno.
  cbn [andb] in Hno. by rewrite Hno.
Qed.

Lemma TrimURL_reparse (s : string) (u : TrimURL.url) :
  newURL s = Some u → newURL (href u) = Some u.
Proof.
  destruct u as [p]. cbn [newURL href TrimURL.api TrimURL.inner].
  unfold TrimURL.parse. intros Hp.
  destruct (SimpleURL.parse (TrimURL.strip s)) as [p'|] eqn:Hparse; [|done].
  injection Hp as ->.
  assert (TrimURL.strip (SimpleURL.serialize p) = SimpleURL.serialize p) as ->.
  { unfold TrimURL.strip.
    rewrite serialize_stripStart by by apply (parse_canonical _ _ Hparse).
    apply (parse_stripEnd _ _ Hparse), stripEnd_idemp. }
  by rewrite canonical_reparse by by apply (parse_canonical _ _ Hparse).
Qed.

Lemma includes_char (c : ascii) (s : string) :
  JS.includes s (String c "") = negb (SimpleURL.nochar c s).
Proof.
  induction s as [|a s IH]; [done|].
  rewrite nochar_cons, negb_andb, negb_involutive, <-IH. simpl.
  by rewrite andb_true_r.
Qed.

Lemma all_chars_strip (P : ascii → bool) (s : string) :
  SimpleURL.all_chars P s = true → SimpleURL.all_chars P (TrimURL.strip s) = true.
Proof.
  unfold TrimURL.strip. intros Hs.
  assert (SimpleURL.all_chars P (TrimURL.stripStart s) = true) as Hstart.
  { induction s as [|c s IH]; [done|]. simpl in *.
    destruct (TrimURL.is_c0_or_space c); [|done].
    apply IH. by apply andb_true_iff in Hs as [_ ?]. }
  clear Hs. induction (TrimURL.stripStart s) as [|c t IH]; [done|].
  simpl in *. apply andb_true_iff in Hstart as [Hc Ht].
  destruct (TrimURL.is_c0_or_space c && _); [done|].
  simpl. by rewrite Hc, IH.
Qed.

Lemma parse_no_fragment (s : string) (u : SimpleURL.url) :
  SimpleURL.parse s = Some u → SimpleURL.nochar "#" s = true →
  SimpleURL.fragment u = None.
Proof.
  unfold SimpleURL.parse.
  destruct (SimpleURL.cut ":" s) as [sch0 [rest|]] eqn:Hc1; [|done].
  destruct (SimpleURL.valid_scheme sch0); [|done].
  destruct (SimpleURL.cut "#" rest) as [r1 frag] eqn:Hc2.
  destruct (SimpleURL.cut "?" r1) as [r2 qry] eqn:Hc3.
  apply cut_spec in Hc1 as [_ ->]. apply cut_spec in Hc2 as [_ ->].
  intros Hu Hs.
  assert (frag = None) as ->.
  { destruct frag as [f|]; [|done]. cbn [SimpleURL.opt_prefixed] in Hs.
    rewrite !nochar_app in Hs. destruct_andb. done. }
  revert Hu. unfold SimpleURL.parse_hier.
  repeat match goal with
         | |- context [if ?b then _ else _] => destruct b
         | |- context [let '(_, _) := ?p in _] => destruct p
         end; by intros [= <-].
Qed.

Lemma TrimURL_href_no_hash (s : string) (u : TrimURL.url) :
  newURL s = Some u → JS.includes s "#" = false →
  JS.split0 "#" (href u) = href u.
Proof.
  destruct u as [p]. cbn [newURL href TrimURL.api TrimURL.inner].
  unfold TrimURL.parse. intros Hp Hs.
  destruct (SimpleURL.parse (TrimURL.strip s)) as [p'|] eqn:Hparse; [|done].
  injection Hp as ->.
  rewrite includes_char in Hs. apply negb_false_iff in Hs.
  rewrite canonical_split0 by by apply (parse_canonical _ _ Hparse).
  apply (all_chars_strip _ s) in Hs.
  pose proof (parse_no_fragment _ _ Hparse Hs) as Hfrag.
  destruct p as [sch h pth q f]. cbn in Hfrag. by subst f.
Qed.

(** On [TrimURL] the scoped crawler records a fixed point of its
    normaliser, for every link. *)
Lemma scoped_normalizeHref_TrimURL_idemp (h : string) (u : TrimURL.url) :
  Scoped.normalizeHref h = Some u → Scoped.normalizeHref (href u) = Some u.
Proof.
  unfold Scoped.normalizeHref at 1.
  destruct (newURL h) as [u0|]; [|done]. cbv zeta. intros Hu.
  pose proof (TrimURL_reparse _ _ Hu) as Hre.
  pose proof (TrimURL_href_no_hash _ _ Hu (split_head_no_sep "#" (href u0)))
    as Hsplit.
  unfold Scoped.normalizeHref. rewrite Hre. cbv zeta. by rewrite Hsplit.
Qed.

(** * The run *)

Section RunFacts.
Context {URL : Type} `{!URLApi URL}.

Lemma parseStartUrls_empty (env : ProcessEnv) :
  startUrlsOf env = [] → parseStartUrls env = inl no_start_url.
Proof. unfold parseStartUrls. by intros ->. Qed.

Lemma parseStartUrls_nonempty (env : ProcessEnv) :
  startUrlsOf env ≠ [] → parseStartUrls env = inr (startUrlsOf env).
Proof.
  unfold parseStartUrls. intros Hne.
  destruct (startUrlsOf env) as [|s l]; [done|].
  by rewrite bool_decide_eq_false_2.
Qed.

Lemma startUrlsOf_nonempty_entries (env : ProcessEnv) (s : string) :
  s ∈ startUrlsOf env → s ≠ "".
Proof.
  unfold startUrlsOf, JS.filterBoolean.
  assert (∀ l, s ∈ List.filter JS.truthy l → s ≠ "") as Hf.
  { intros l [_ Hs]%list_elem_of_In%filter_In. unfold JS.truthy in Hs.
    by apply negb_true_iff, bool_decide_eq_false in Hs. }
  destruct (bool_decide _); [apply Hf|].
  destruct (START_URL env); [apply Hf | by intros ?%not_elem_of_nil].
Qed.

End RunFacts.

(** * What the handlers keep out of the discovery set *)

Section RecordedFacts.
Context {URL : Type} `{!URLApi URL}.

Lemma scoped_skippable_dropped (sc : Scoped.Scope) (D : gset string) (h : string) :
  isSkippableScheme h = true → Scoped.processLink sc D h = D.
Proof. intros Hs. by apply processLink_dropped, skippable_parseLink. Qed.

Lemma scoped_recorded_no_hash `{!URLLaws URL} (sc : Scoped.Scope)
    (D : gset string) (pageLinks : list string) :
  (∀ x, x ∈ D → JS.includes x "#" = false) →
  ∀ x, x ∈ Scoped.requestHandler sc D pageLinks → JS.includes x "#" = false.
Proof.
  unfold Scoped.requestHandler. revert D.
  induction pageLinks as [|h l IH]; intros D HD; simpl; [done|].
  apply IH. intros x. unfold Scoped.processLink.
  destruct (Scoped.parseLink h) as [u|] eqn:Hu; [|by apply HD].
  destruct (Scoped.shouldRecord sc u); [|by apply HD].
  intros [->|Hx]%elem_of_add; [|by apply HD].
  unfold Scoped.parseLink in Hu. destruct (isSkippableScheme h); [done|].
  apply scoped_normalizeHref_inv in Hu as (u0 & Hu0 & ->).
  by apply (href_clearHash_no_hash h).
Qed.

Lemma links_recorded_no_hash (sdo : bool) (allowed D : gset string)
    (pageLinks : list string) :
  (∀ x, x ∈ D → JS.includes x "#" = false) →
  ∀ x, x ∈ Links.requestHandler sdo allowed D pageLinks →
    JS.includes x "#" = false.
Proof.
  unfold Links.requestHandler. revert D.
  induction pageLinks as [|h l IH]; intros D HD; simpl; [done|].
  apply IH. intros x. unfold Links.processLink.
  destruct (isSkippableScheme h); [by apply HD|].
  destruct (Links.normalizeHref h) as [absolute|] eqn:Habs; [|by apply HD].
  assert (JS.includes absolute "#" = false) as Hno.
  { unfold Links.normalizeHref in Habs. destruct (newURL h); [|done].
    injection Habs as <-. apply split_head_no_sep. }
  destruct sdo.
  - destruct (newURL absolute); [|by apply HD].
    destruct (negb _); [by apply HD|].
    by intros [->|Hx]%elem_of_add; [|apply HD].
  - by intros [->|Hx]%elem_of_add; [|apply HD].
Qed.

(** The plain crawler has no path prefixes and no classifier: both of its
    callbacks decide on the host name alone, and agree on it. *)
Lemma links_processLink_parsed `{!URLLaws URL} (sdo : bool)
    (allowed D : gset string) (h : string) (u0 : URL) :
  isSkippableScheme h = false → newURL h = Some u0 →
  Links.processLink sdo allowed D h =
    if negb sdo || bool_decide (hostname (clearHash u0) ∈ allowed)
    then JS.add (href (clearHash u0)) D else D.
Proof.
  intros Hskip Hu0. unfold Links.processLink.
  rewrite Hskip, (links_normalizeHref_parsed h u0 Hu0).
  destruct sdo; [|done]. rewrite (reparse_clearHash h u0 Hu0).
  by destruct (bool_decide (hostname (clearHash u0) ∈ allowed)).
Qed.

Lemma links_transformRequestFunction_parsed (sdo : bool) (allowed : gset string)
    (h : string) (u0 : URL) :
  newURL h = Some u0 →
  Links.transformRequestFunction sdo allowed h =
    if (bool_decide (protocol (clearHash u0) = "http:") ||
        bool_decide (protocol (clearHash u0) = "https:")) &&
       (negb sdo || bool_decide (hostname (clearHash u0) ∈ allowed))
    then Some (href (clearHash u0)) else None.
Proof.
  intros Hu0. unfold Links.transformRequestFunction. rewrite Hu0. cbv zeta.
  by destruct (bool_decide (protocol (clearHash u0) = "http:")),
    (bool_decide (protocol (clearHash u0) = "https:")), sdo,
    (bool_decide (hostname (clearHash u0) ∈ allowed)).
Qed.

End RecordedFacts.

(** * Main results *)

(** C1. Scope policy, page variant.  With [sameDomainOnly] a URL is in
    scope only if its host name is an allowed one.  On an admissible host
    with a non-empty prefix entry the URL is in scope exactly when its
    normalised path starts with one of the recorded prefixes; with an empty
    or absent entry every path is in scope.  For the seed
    [https://example.com/dubai/]: [/dubai/villas] is in scope,
    [/sharjah/villas] is not, and [https://other.com/dubai/] is not when
    [sameDomainOnly] holds. *)
Theorem scope_policy_page_variant :
  (∀ (URL : Type) (api : URLApi URL) (u : URL) (sdo : bool)
     (allowed : gset string) (hp : gmap string (list string)),
     (Scoped.isInScope u sdo allowed hp = true →
      sdo = true → hostname u ∈ allowed) ∧
     ((sdo = true → hostname u ∈ allowed) →
      ∀ prefixes, hp !! hostname u = Some prefixes → prefixes ≠ [] →
        (Scoped.isInScope u sdo allowed hp = true ↔
         ∃ p r, p ∈ prefixes ∧
           Scoped.normalizePathPrefix (JS.or_else (pathname u) "/") = p +:+ r)) ∧
     ((sdo = true → hostname u ∈ allowed) →
      hp !! hostname u = None ∨ hp !! hostname u = Some [] →
      Scoped.isInScope u sdo allowed hp = true)) ∧
  (let seeds := ["https://example.com/dubai/"] in
   let allowed := getAllowedHostnames (URL := SimpleURL.url) seeds in
   let hp := Scoped.getHostnameToPathPrefixes (URL := SimpleURL.url) seeds in
   (∀ sdo, ∃ u, newURL "https://example.com/dubai/villas" = Some u ∧
      Scoped.isInScope u sdo allowed hp = true) ∧
   (∀ sdo, ∃ u, newURL "https://example.com/sharjah/villas" = Some u ∧
      Scoped.isInScope u sdo allowed hp = false) ∧
   (∃ u, newURL "https://other.com/dubai/" = Some u ∧
      Scoped.isInScope u true allowed hp = false)).
Proof.
  split.
  - intros URL api u sdo allowed hp. split; [|split].
    + by intros [Hhost _]%isInScope_true.
    + intros Hhost prefixes Hps Hne. rewrite isInScope_true. split.
      * intros [_ Hex]. by apply Hex.
      * intros Hex. split; [done|]. intros ps' Hps' _.
        by assert (ps' = prefixes) as -> by congruence.
    + intros Hhost Hnone. apply isInScope_true. split; [done|].
      intros ps Hps Hne. destruct Hnone as [Hn|Hn]; congruence.
  - cbv zeta. split; [|split].
    + intros sdo.
      exists (SimpleURL.mk "https" (Some "example.com") "/dubai/villas" None None).
      split; [by vm_compute|]. by destruct sdo; vm_compute.
    + intros sdo.
      exists (SimpleURL.mk "https" (Some "example.com") "/sharjah/villas" None None).
      split; [by vm_compute|]. by destruct sdo; vm_compute.
    + exists (SimpleURL.mk "https" (Some "other.com") "/dubai/" None None).
      split; by vm_compute.
Qed.

(** C2. Relaxed asset scope.  A link that the classifier marks as an asset
    is recorded exactly when its host name is allowed (per
    [sameDomainOnly]) and its lower-cased path contains a scope token of
    that host, or the host has no scope tokens.  For the seed
    [https://example.com/dubai/], [/downloads/dubai-brochure.pdf] is
    recorded and [/downloads/sharjah-brochure.pdf] is not. *)
Theorem asset_relaxed_scope :
  (∀ (URL : Type) (api : URLApi URL) (sc : Scoped.Scope) (u : URL),
     Scoped.isLikelyBinaryAsset (pathname u) = true →
     (Scoped.shouldRecord sc u = true ↔
      (Scoped.sameDomainOnly sc = true →
       hostname u ∈ Scoped.allowedHostnames sc) ∧
      ((∃ t a b,
          t ∈ default ∅ (Scoped.hostnameToScopeTokens sc !! hostname u) ∧
          JS.toLowerCase (pathname u) = a +:+ t +:+ b) ∨
       default ∅ (Scoped.hostnameToScopeTokens sc !! hostname u) = ∅)) ∧
     (∀ (D : gset string) (h x : string),
        Scoped.parseLink h = Some u →
        (x ∈ Scoped.processLink sc D h ↔
         x ∈ D ∨ (x = href u ∧ Scoped.shouldRecord sc u = true)))) ∧
  (∀ sdo,
     let sc := Scoped.buildScope (URL := SimpleURL.url)
                 ["https://example.com/dubai/"] sdo in
     sortedLinks (Scoped.requestHandler sc ∅
       ["https://example.com/downloads/dubai-brochure.pdf"]) =
     ["https://example.com/downloads/dubai-brochure.pdf"] ∧
     sortedLinks (Scoped.requestHandler sc ∅
       ["https://example.com/downloads/sharjah-brochure.pdf"]) = []).
Proof.
  split.
  - intros URL api sc u Hasset. split.
    + by rewrite (shouldRecord_asset sc u Hasset), andb_true_iff,
        withinHost_true, assetMatchesScope_true.
    + intros D h x Hu. rewrite (processLink_parsed sc D h u Hu).
      destruct (Scoped.shouldRecord sc u).
      * rewrite elem_of_add. split; [intros [->|]; auto | intros [|[]]; auto].
      * split; [auto | by intros [|[]]].
  - intros sdo. cbv zeta. destruct sdo; vm_compute; split; reflexivity.
Qed.

(** C3. Frontier filter.  [transformRequestFunction] accepts a candidate
    exactly when it parses, its scheme is http or https, the page variant of
    the scope policy admits it and the classifier does not mark it as an
    asset; the accepted request carries the serialised URL with the hash
    cleared, which under the laws of [URL] is the candidate's [href] cut at
    its first ["#"]; an asset is never accepted. *)
Theorem frontier_filter_spec :
  (∀ (URL : Type) (api : URLApi URL) (sc : Scoped.Scope) (req_url : string),
     (∀ r, Scoped.transformRequestFunction sc req_url = Some r ↔
        ∃ u0, newURL req_url = Some u0 ∧
          r = href (clearHash u0) ∧
          (protocol (clearHash u0) = "http:" ∨
           protocol (clearHash u0) = "https:") ∧
          Scoped.isInScope (clearHash u0) (Scoped.sameDomainOnly sc)
            (Scoped.allowedHostnames sc) (Scoped.hostnameToPrefixes sc) = true ∧
          Scoped.isLikelyBinaryAsset (pathname (clearHash u0)) = false) ∧
     (∀ u0, newURL req_url = Some u0 →
        Scoped.isLikelyBinaryAsset (pathname (clearHash u0)) = true →
        Scoped.transformRequestFunction sc req_url = None) ∧
     (URLLaws URL → ∀ u0 r, newURL req_url = Some u0 →
        Scoped.transformRequestFunction sc req_url = Some r →
        r = JS.split0 "#" (href u0) ∧ JS.includes r "#" = false)) ∧
  (let sc := Scoped.buildScope (URL := SimpleURL.url)
               ["https://example.com/dubai/"] true in
   Scoped.transformRequestFunction sc "https://example.com/dubai/villas#top" =
     Some "https://example.com/dubai/villas" ∧
   Scoped.transformRequestFunction sc "https://example.com/dubai/plan.pdf" = None ∧
   Scoped.transformRequestFunction sc "https://example.com/sharjah/villas" = None ∧
   Scoped.transformRequestFunction sc "ftp://example.com/dubai/villas" = None).
Proof.
  split.
  - intros URL api sc req_url. split; [|split].
    + intros r. apply transformRequestFunction_Some.
    + intros u0 Hu0 Hasset.
      destruct (Scoped.transformRequestFunction sc req_url) as [r|] eqn:Hr;
        [|done].
      apply transformRequestFunction_Some in Hr as (u0' & Hu0' & _ & _ & _ & Hno).
      congruence.
    + intros Hlaws u0 r Hu0 Hr.
      apply transformRequestFunction_Some in Hr as (u0' & Hu0' & -> & _).
      assert (u0' = u0) as -> by congruence.
      split; [by rewrite (split_hash_href req_url) | by apply (href_clearHash_no_hash req_url)].
  - cbv zeta. by vm_compute.
Qed.

(** C4. Discovery set members and their scheme.  The handlers skip the
    four schemes of [isSkippableScheme] only: a link with the scheme ftp on
    an allowed host and under a seed's path is recorded by the scoped
    crawler and by the plain crawler, while the frontier filter, which
    compares [protocol] with http and https, rejects the same URL. *)
Theorem discovery_set_records_ftp_link :
  let seeds := ["https://example.com/dubai/"] in
  let sc := Scoped.buildScope (URL := SimpleURL.url) seeds true in
  sortedLinks (Scoped.requestHandler sc ∅ ["ftp://example.com/dubai/file"]) =
    ["ftp://example.com/dubai/file"] ∧
  sortedLinks (Links.requestHandler (URL := SimpleURL.url) true
                 (getAllowedHostnames (URL := SimpleURL.url) seeds) ∅
                 ["ftp://example.com/dubai/file"]) =
    ["ftp://example.com/dubai/file"] ∧
  Scoped.transformRequestFunction sc "ftp://example.com/dubai/file" = None ∧
  sortedLinks (Scoped.requestHandler sc ∅ ["javascript:void(0)"]) = [].
Proof. cbv zeta. vm_compute. repeat split; reflexivity. Qed.

(** C5, stated for every URL, fails: for the seed
    [https://example.com/dubai/] the handler records the asset
    [/downloads/dubai-brochure.pdf] while the scope check of the frontier
    filter rejects the same URL. *)
Lemma scope_paths_disagree_on_asset :
  ¬ (∀ (sc : Scoped.Scope) (h : string) (u0 u : SimpleURL.url),
       newURL h = Some u0 → Scoped.normalizeHref h = Some u →
       Scoped.shouldRecord sc u =
       Scoped.isInScope (clearHash u0) (Scoped.sameDomainOnly sc)
         (Scoped.allowedHostnames sc) (Scoped.hostnameToPrefixes sc)).
Proof.
  intros Hagree.
  specialize (Hagree
    (Scoped.buildScope (URL := SimpleURL.url) ["https://example.com/dubai/"] true)
    "https://example.com/downloads/dubai-brochure.pdf"
    (SimpleURL.mk "https" (Some "example.com")
       "/downloads/dubai-brochure.pdf" None None)
    (SimpleURL.mk "https" (Some "example.com")
       "/downloads/dubai-brochure.pdf" None None)).
  vm_compute in Hagree. by specialize (Hagree eq_refl eq_refl).
Qed.

(** C5, amended.  For a link that the classifier does not mark as an
    asset, the handler and the frontier filter reach the same URL object and
    the same scope verdict: the handler records the link exactly when
    [isInScope] admits the frontier filter's URL, and for an http or https
    URL exactly when the frontier filter accepts it. *)
Theorem page_scope_paths_agree {URL : Type} `{!URLApi URL} `{!URLLaws URL}
    (sc : Scoped.Scope) (h : string) (u0 : URL) :
  newURL h = Some u0 →
  Scoped.isLikelyBinaryAsset (pathname (clearHash u0)) = false →
  Scoped.normalizeHref h = Some (clearHash u0) ∧
  Scoped.shouldRecord sc (clearHash u0) =
    Scoped.isInScope (clearHash u0) (Scoped.sameDomainOnly sc)
      (Scoped.allowedHostnames sc) (Scoped.hostnameToPrefixes sc) ∧
  (protocol (clearHash u0) = "http:" ∨ protocol (clearHash u0) = "https:" →
   (Scoped.shouldRecord sc (clearHash u0) = true ↔
    Scoped.transformRequestFunction sc h = Some (href (clearHash u0)))).
Proof.
  intros Hu0 Hpage. split; [by apply scoped_normalizeHref_parsed|].
  split; [by apply shouldRecord_page|]. intros Hproto.
  rewrite (shouldRecord_page sc _ Hpage), transformRequestFunction_Some. split.
  - intros Hscope. by exists u0.
  - intros (u0' & Hu0' & _ & _ & Hscope & _). congruence.
Qed.

(** The amended C5 at the link [https://example.com/dubai/villas#top]. *)
Lemma page_scope_paths_agree_witness :
  let sc := Scoped.buildScope (URL := SimpleURL.url)
              ["https://example.com/dubai/"] true in
  let u0 := SimpleURL.mk "https" (Some "example.com") "/dubai/villas" None
              (Some "top") in
  newURL "https://example.com/dubai/villas#top" = Some u0 ∧
  Scoped.normalizeHref "https://example.com/dubai/villas#top" =
    Some (clearHash u0) ∧
  Scoped.shouldRecord sc (clearHash u0) =
    Scoped.isInScope (clearHash u0) (Scoped.sameDomainOnly sc)
      (Scoped.allowedHostnames sc) (Scoped.hostnameToPrefixes sc).
Proof.
  cbv zeta.
  set (u0 := SimpleURL.mk "https" (Some "example.com") "/dubai/villas" None
               (Some "top")).
  assert (newURL "https://example.com/dubai/villas#top" = Some u0) as Hu0
    by (vm_compute; reflexivity).
  assert (Scoped.isLikelyBinaryAsset (pathname (clearHash u0)) = false) as Hpage
    by (vm_compute; reflexivity).
  destruct (page_scope_paths_agree
    (Scoped.buildScope (URL := SimpleURL.url) ["https://example.com/dubai/"] true)
    "https://example.com/dubai/villas#top" u0 Hu0 Hpage) as (Hnorm & Hverdict & _).
  exact (conj Hu0 (conj Hnorm Hverdict)).
Defined.

(** C6, with lower-cased prefixes, fails: the seed
    [https://example.com/Dubai/] records the prefix [/Dubai/], in the case
    the seed has. *)
Lemma prefix_table_keeps_case :
  ¬ (∀ (seeds : list string) (h : string) (ps : list string) (p : string),
       Scoped.getHostnameToPathPrefixes (URL := SimpleURL.url) seeds !! h = Some ps →
       p ∈ ps →
       JS.toLowerCase p = p ∧ JS.startsWith p "/" = true ∧
       JS.endsWith p "/" = true).
Proof.
  intros Hlower.
  destruct (Hlower ["https://example.com/Dubai/"] "example.com" ["/Dubai/"]
              "/Dubai/") as [Hcase _].
  - vm_compute. reflexivity.
  - apply list_elem_of_here.
  - vm_compute in Hcase. discriminate Hcase.
Qed.

(** C6, amended.  Every prefix recorded in the path prefix table starts
    and ends with ["/"] and is the trimmed path of a seed of that host with
    its case kept; a host all of whose seeds have the path ["/"] has the one
    prefix ["/"], and every URL on that host that passes the host check is
    in scope. *)
Theorem prefix_table_slashes_and_root {URL : Type} `{!URLApi URL}
    (seeds : list string) (h : string) (ps : list string) :
  Scoped.getHostnameToPathPrefixes seeds !! h = Some ps →
  (∀ p, p ∈ ps →
     JS.startsWith p "/" = true ∧ JS.endsWith p "/" = true ∧
     ∃ s x, s ∈ seeds ∧ newURL s = Some x ∧ hostname x = h ∧
       p = Scoped.normalizePathPrefix (JS.or_else (pathname x) "/")) ∧
  ((∀ s x, s ∈ seeds → newURL s = Some x → hostname x = h → pathname x = "/") →
   ps = ["/"] ∧
   ∀ (u : URL) (sdo : bool) (allowed : gset string),
     hostname u = h → (sdo = true → h ∈ allowed) →
     Scoped.isInScope u sdo allowed (Scoped.getHostnameToPathPrefixes seeds) = true).
Proof.
  intros Hps. destruct (prefix_table_inv seeds h ps Hps) as (Hnd & Hne & Hin).
  split.
  - intros p Hp. destruct (Hin p Hp) as (s & x & Hs & Hx & Hh & ->).
    split; [apply normalizePathPrefix_starts|].
    split; [apply normalizePathPrefix_ends|]. by exists s, x.
  - intros Hroot.
    assert (∀ p, p ∈ ps → p = "/") as Hall.
    { intros p Hp. destruct (Hin p Hp) as (s & x & Hs & Hx & Hh & ->).
      by rewrite (Hroot s x Hs Hx Hh). }
    assert (ps = ["/"]) as ->.
    { destruct ps as [|p [|p' ps]]; [done| |].
      - by rewrite (Hall p) by apply list_elem_of_here.
      - apply NoDup_cons in Hnd as [Hp _]. destruct Hp.
        rewrite (Hall p), (Hall p'); [apply list_elem_of_here| |];
          repeat constructor. }
    split; [done|]. intros u sdo allowed Hu Hhost. apply isInScope_true.
    rewrite Hu. split; [done|]. intros ps' Hps' _.
    assert (ps' = ["/"]) as -> by congruence.
    pose proof (normalizePathPrefix_starts (JS.or_else (pathname u) "/")) as Hst.
    apply startsWith_spec in Hst as [r Hr].
    exists "/", r. split; [apply list_elem_of_here | done].
Qed.

(** The amended C6 at two root seeds of [example.com]. *)
Lemma prefix_table_slashes_and_root_witness :
  Scoped.getHostnameToPathPrefixes (URL := SimpleURL.url)
    ["https://example.com"; "https://example.com/"] !! "example.com" =
    Some ["/"] ∧
  (∀ (u : SimpleURL.url) (sdo : bool) (allowed : gset string),
     hostname u = "example.com" → (sdo = true → "example.com" ∈ allowed) →
     Scoped.isInScope u sdo allowed
       (Scoped.getHostnameToPathPrefixes
          ["https://example.com"; "https://example.com/"]) = true).
Proof.
  assert (Scoped.getHostnameToPathPrefixes (URL := SimpleURL.url)
            ["https://example.com"; "https://example.com/"] !! "example.com" =
          Some ["/"]) as Hps by (vm_compute; reflexivity).
  split; [exact Hps|].
  apply (prefix_table_slashes_and_root
           ["https://example.com"; "https://example.com/"] "example.com" ["/"] Hps).
  intros s x Hs Hx _.
  apply elem_of_cons in Hs as [-> | Hs];
    [|apply list_elem_of_singleton in Hs as ->];
    vm_compute in Hx; injection Hx as <-; reflexivity.
Defined.

(** C7. Discovery set and snapshot.  Recording a URL twice is the same as
    recording it once; neither handler removes an entry; the final array is
    sorted in ascending order of code units, has no duplicates and holds
    exactly the recorded URLs; when [main] completes, the engine has
    resolved and [main] returns that array for the visits it delivered. *)
Theorem discovery_set_snapshot :
  (∀ (x : string) (D : gset string), JS.add x (JS.add x D) = JS.add x D) ∧
  (∀ (x : string) (D : gset string), D ⊆ JS.add x D) ∧
  (∀ (URL : Type) (api : URLApi URL) (sc : Scoped.Scope) (D : gset string)
     (pageLinks : list string), D ⊆ Scoped.requestHandler sc D pageLinks) ∧
  (∀ (URL : Type) (api : URLApi URL) (sdo : bool) (allowed D : gset string)
     (pageLinks : list string), D ⊆ Links.requestHandler sdo allowed D pageLinks) ∧
  (∀ D : gset string,
     StronglySorted String.le (sortedLinks D) ∧ NoDup (sortedLinks D) ∧
     ∀ x, x ∈ sortedLinks D ↔ x ∈ D) ∧
  (∀ (URL : Type) (api : URLApi URL) (env : ProcessEnv) (engine : Engine)
     (storage : Storage) (linksArray : list string),
     (Scoped.main env engine = Completed linksArray →
      ∃ visits, engine (startUrlsOf env) = Some visits ∧
      linksArray =
        sortedLinks
          (foldl (Scoped.requestHandler
                    (Scoped.buildScope (startUrlsOf env) (readSameDomainOnly env)))
             ∅ visits)) ∧
     (Links.main env engine storage = Completed linksArray →
      ∃ visits, engine (startUrlsOf env) = Some visits ∧
      linksArray =
        sortedLinks
          (foldl (Links.requestHandler (readSameDomainOnly env)
                    (getAllowedHostnames (startUrlsOf env)))
             ∅ visits))) ∧
  sortedLinks (JS.add "https://b.example/" (JS.add "https://a.example/z"
     (JS.add "https://b.example/" (JS.add "https://a.example/" ∅)))) =
    ["https://a.example/"; "https://a.example/z"; "https://b.example/"].
Proof.
  split; [apply add_idemp|]. split; [apply add_subseteq|].
  split; [intros; apply scoped_requestHandler_mono|].
  split; [intros; apply links_requestHandler_mono|].
  split.
  { intros D. split; [apply sortedLinks_sorted|].
    split; [apply sortedLinks_NoDup | apply elem_of_sortedLinks]. }
  split; [|vm_compute; reflexivity].
  intros URL api env engine storage linksArray.
  unfold Scoped.main, Links.main, parseStartUrls.
  destruct (bool_decide (length (startUrlsOf env) = 0)); [done|].
  destruct (engine (startUrlsOf env)) as [visits|]; [|done]. cbv zeta.
  split.
  - intros [= <-]. by exists visits.
  - destruct (storage _); [|done]. intros [= <-]. by exists visits.
Qed.

(** C8. Normalisation is not idempotent in the plain crawler.  On a URL
    implementation that strips its input, the plain crawler turns the link
    ["sms:abc #frag"] into ["sms:abc "], and normalising that string again
    gives ["sms:abc"]: the output of its normaliser is not a fixed point,
    and the two links ["sms:abc #frag"] and ["sms:abc"] leave two entries
    in the discovery set.  The scoped crawler parses the fragment-free text
    once more and records the [href] of the result, ["sms:abc"], which it
    maps to itself, as it does with every link on this implementation. *)
Theorem plain_normalizer_not_idempotent :
  Links.normalizeHref (URL := TrimURL.url) "sms:abc #frag" = Some "sms:abc " ∧
  Links.normalizeHref (URL := TrimURL.url) "sms:abc " = Some "sms:abc" ∧
  ¬ (∀ h y : string,
       Links.normalizeHref (URL := TrimURL.url) h = Some y →
       Links.normalizeHref (URL := TrimURL.url) y = Some y) ∧
  sortedLinks
    (Links.requestHandler (URL := TrimURL.url) false ∅ ∅
       ["sms:abc #frag"; "sms:abc"]) = ["sms:abc"; "sms:abc "] ∧
  href <$> Scoped.normalizeHref (URL := TrimURL.url) "sms:abc #frag" =
    Some "sms:abc" ∧
  href <$> Scoped.normalizeHref (URL := TrimURL.url) "sms:abc" =
    Some "sms:abc" ∧
  sortedLinks
    (Scoped.requestHandler (URL := TrimURL.url) (Scoped.buildScope [] false) ∅
       ["sms:abc #frag"; "sms:abc"]) = ["sms:abc"] ∧
  (∀ (h : string) (u : TrimURL.url),
     Scoped.normalizeHref h = Some u → Scoped.normalizeHref (href u) = Some u).
Proof.
  assert (Links.normalizeHref (URL := TrimURL.url) "sms:abc #frag" =
          Some "sms:abc ") as Hfirst by (vm_compute; reflexivity).
  assert (Links.normalizeHref (URL := TrimURL.url) "sms:abc " =
          Some "sms:abc") as Hsecond by (vm_compute; reflexivity).
  split; [exact Hfirst|]. split; [exact Hsecond|]. split.
  { intros Hidem. specialize (Hidem _ _ Hfirst). rewrite Hsecond in Hidem.
    discriminate. }
  do 4 (split; [vm_compute; reflexivity|]).
  apply scoped_normalizeHref_TrimURL_idemp.
Qed.

(** C9. A malformed seed ends the run.  With an empty start URL list
    [main] exits with code 1 whatever the engine does.  With a non-empty
    list [main] hands the list to the engine as it is, and exits with code 1
    when the engine rejects it.  A seed that [new URL] refuses is left out
    of the host set and of the prefix table, but it stays in the list for
    the engine, and an engine that checks its start URLs rejects the list:
    with the seeds ["https://example.com/dubai/"] and ["not a url"] both
    crawlers exit with code 1, although the first seed alone completes. *)
Theorem malformed_seed_aborts_run :
  (∀ (URL : Type) (api : URLApi URL) (env : ProcessEnv) (engine : Engine)
     (storage : Storage),
     startUrlsOf env = [] →
     Scoped.main env engine = Exited 1 ∧
     Links.main env engine storage = Exited 1) ∧
  (∀ (URL : Type) (api : URLApi URL) (env : ProcessEnv) (engine : Engine)
     (storage : Storage),
     startUrlsOf env ≠ [] → engine (startUrlsOf env) = None →
     Scoped.main env engine = Exited 1 ∧
     Links.main env engine storage = Exited 1) ∧
  (∀ (URL : Type) (api : URLApi URL) (seeds1 seeds2 : list string) (s : string)
     (visits : list (list string)),
     newURL s = None →
     getAllowedHostnames (seeds1 ++ s :: seeds2) =
       getAllowedHostnames (seeds1 ++ seeds2) ∧
     Scoped.getHostnameToPathPrefixes (seeds1 ++ s :: seeds2) =
       Scoped.getHostnameToPathPrefixes (seeds1 ++ seeds2) ∧
     validatingEngine visits (seeds1 ++ s :: seeds2) = None) ∧
  (let both := {| argv := ["node"; "crawler.js"];
                  START_URL := Some "https://example.com/dubai/, not a url";
                  SAME_DOMAIN_ONLY := None |} in
   let one := {| argv := ["node"; "crawler.js"];
                 START_URL := Some "https://example.com/dubai/";
                 SAME_DOMAIN_ONLY := None |} in
   let visits := [["mailto:sales@example.com";
                   "https://example.com/dubai/villas#map"; "/relative";
                   "https://example.com/dubai/villas"]] in
   startUrlsOf both = ["https://example.com/dubai/"; "not a url"] ∧
   Scoped.main (URL := SimpleURL.url) both (validatingEngine visits) = Exited 1 ∧
   Links.main (URL := SimpleURL.url) both (validatingEngine visits) (λ _, true) =
     Exited 1 ∧
   Scoped.main (URL := SimpleURL.url) one (validatingEngine visits) =
     Completed ["https://example.com/dubai/villas"] ∧
   Links.main (URL := SimpleURL.url) one (validatingEngine visits) (λ _, true) =
     Completed ["https://example.com/dubai/villas"]).
Proof.
  split; [|split; [|split]].
  - intros URL api env engine storage Hempty. unfold Scoped.main, Links.main.
    by rewrite (parseStartUrls_empty env Hempty).
  - intros URL api env engine storage Hne Hreject.
    unfold Scoped.main, Links.main.
    by rewrite (parseStartUrls_nonempty env Hne), Hreject.
  - intros URL api seeds1 seeds2 s visits Hs.
    rewrite getAllowedHostnames_malformed, getHostnameToPathPrefixes_malformed
      by done.
    split; [done|]. split; [done|].
    unfold validatingEngine. rewrite forallb_app. cbn [forallb].
    rewrite Hs, (bool_decide_eq_false_2 (is_Some None)) by apply is_Some_None.
    by rewrite andb_false_r.
  - cbv zeta. repeat split; vm_compute; reflexivity.
Qed.

(** C10. Assets on a host without scope tokens.  When the scope token
    table has no entry, or an empty one, for the host of a URL,
    [assetMatchesScope] holds, so an asset on that host that passes the
    host check is recorded; a host that no seed names has no entry, so
    without [sameDomainOnly] every asset on such a host is recorded. *)
Theorem asset_on_host_without_tokens :
  (∀ (URL : Type) (api : URLApi URL) (sc : Scoped.Scope) (u : URL),
     Scoped.hostnameToScopeTokens sc !! hostname u = None ∨
     Scoped.hostnameToScopeTokens sc !! hostname u = Some ∅ →
     Scoped.assetMatchesScope u (Scoped.hostnameToScopeTokens sc) = true ∧
     (Scoped.isLikelyBinaryAsset (pathname u) = true →
      (Scoped.sameDomainOnly sc = true →
       hostname u ∈ Scoped.allowedHostnames sc) →
      Scoped.shouldRecord sc u = true ∧
      ∀ (D : gset string) (h : string),
        Scoped.parseLink h = Some u → href u ∈ Scoped.processLink sc D h)) ∧
  (∀ (URL : Type) (api : URLApi URL) (seeds : list string) (sdo : bool)
     (h : string),
     (∀ s x, s ∈ seeds → newURL s = Some x → hostname x ≠ h) →
     Scoped.hostnameToScopeTokens (Scoped.buildScope seeds sdo) !! h = None) ∧
  (∀ (URL : Type) (api : URLApi URL) (seeds : list string) (u : URL),
     (∀ s x, s ∈ seeds → newURL s = Some x → hostname x ≠ hostname u) →
     Scoped.isLikelyBinaryAsset (pathname u) = true →
     Scoped.shouldRecord (Scoped.buildScope seeds false) u = true).
Proof.
  assert (∀ (URL : Type) (api : URLApi URL) (sc : Scoped.Scope) (u : URL),
            Scoped.hostnameToScopeTokens sc !! hostname u = None ∨
            Scoped.hostnameToScopeTokens sc !! hostname u = Some ∅ →
            Scoped.assetMatchesScope u (Scoped.hostnameToScopeTokens sc) = true)
    as Hmatch.
  { intros URL api sc u Hnone. apply assetMatchesScope_true. right.
    by destruct Hnone as [-> | ->]. }
  assert (∀ (URL : Type) (api : URLApi URL) (seeds : list string) (sdo : bool)
            (h : string),
            (∀ s x, s ∈ seeds → newURL s = Some x → hostname x ≠ h) →
            Scoped.hostnameToScopeTokens (Scoped.buildScope seeds sdo) !! h = None)
    as Hforeign.
  { intros URL api seeds sdo h Hh. unfold Scoped.buildScope.
    cbn [Scoped.hostnameToScopeTokens].
    by rewrite scope_tokens_lookup, prefix_table_foreign_host. }
  split; [|split; [done|]].
  - intros URL api sc u Hnone. split; [by apply Hmatch|].
    intros Hasset Hhost.
    assert (Scoped.shouldRecord sc u = true) as Hrec.
    { rewrite (shouldRecord_asset sc u Hasset), Hmatch by done.
      by rewrite andb_true_r, withinHost_true. }
    split; [done|]. intros D h Hu.
    rewrite (processLink_parsed sc D h u Hu), Hrec. apply elem_of_add. by left.
  - intros URL api seeds u Hh Hasset.
    rewrite (shouldRecord_asset _ u Hasset), Hmatch; [done|].
    left. by apply Hforeign.
Qed.

(** C10 at a host that no seed names and at a host seeded at its root. *)
Lemma asset_on_host_without_tokens_witness :
  let sc := Scoped.buildScope (URL := SimpleURL.url)
              ["https://example.com/dubai/"; "https://docs.example.org/"] false in
  let u := SimpleURL.mk "https" (Some "cdn.other.net") "/files/brochure.pdf"
             None None in
  let v := SimpleURL.mk "https" (Some "docs.example.org") "/files/guide.pdf"
             None None in
  Scoped.hostnameToScopeTokens sc !! hostname u = None ∧
  Scoped.hostnameToScopeTokens sc !! hostname v = Some ∅ ∧
  Scoped.shouldRecord sc u = true ∧ Scoped.shouldRecord sc v = true.
Proof.
  cbv zeta.
  set (sc := Scoped.buildScope (URL := SimpleURL.url)
               ["https://example.com/dubai/"; "https://docs.example.org/"] false).
  set (u := SimpleURL.mk "https" (Some "cdn.other.net") "/files/brochure.pdf"
              None None).
  set (v := SimpleURL.mk "https" (Some "docs.example.org") "/files/guide.pdf"
              None None).
  assert (Scoped.hostnameToScopeTokens sc !! hostname u = None) as Hu
    by (vm_compute; reflexivity).
  assert (Scoped.hostnameToScopeTokens sc !! hostname v = Some ∅) as Hv
    by (vm_compute; reflexivity).
  split; [exact Hu|]. split; [exact Hv|]. split.
  - apply (proj1 asset_on_host_without_tokens _ _ sc u (or_introl Hu)).
    + vm_compute. reflexivity.
    + intros Hsdo. vm_compute in Hsdo. discriminate Hsdo.
  - apply (proj1 asset_on_host_without_tokens _ _ sc v (or_intror Hv)).
    + vm_compute. reflexivity.
    + intros Hsdo. vm_compute in Hsdo. discriminate Hsdo.
Defined.

(** * Further properties of the tables *)

Section TableFacts.
Context {URL : Type} `{!URLApi URL}.

Lemma addPrefix_lookup_mono (m : gmap string (list string)) (s h : string)
    (ps : list string) :
  m !! h = Some ps →
  ∃ ps', Scoped.addPrefix m s !! h = Some ps' ∧ ∀ p, p ∈ ps → p ∈ ps'.
Proof.
  intros Hps. unfold Scoped.addPrefix.
  destruct (newURL s) as [x|]; [|by exists ps].
  destruct (decide (hostname x = h)) as [->|Hne].
  - rewrite lookup_insert_eq, Hps. simpl.
    destruct (bool_decide _); eexists; split; try done.
    intros p Hp. apply elem_of_app. by left.
  - rewrite lookup_insert_ne by done. by exists ps.
Qed.

Lemma prefix_table_app_mono (seeds more : list string) (h : string)
    (ps : list string) :
  Scoped.getHostnameToPathPrefixes seeds !! h = Some ps →
  ∃ ps', Scoped.getHostnameToPathPrefixes (seeds ++ more) !! h = Some ps' ∧
    ∀ p, p ∈ ps → p ∈ ps'.
Proof.
  intros Hps. induction more as [|s more IH] using rev_ind.
  - rewrite app_nil_r. by exists ps.
  - destruct IH as (ps1 & Hps1 & Hsub).
    rewrite (assoc_L (++)), getHostnameToPathPrefixes_snoc.
    destruct (addPrefix_lookup_mono _ s h ps1 Hps1) as (ps2 & Hps2 & Hsub2).
    exists ps2. split; [done|]. auto.
Qed.

Lemma prefix_table_complete (seeds : list string) (s : string) (x : URL) :
  s ∈ seeds → newURL s = Some x →
  ∃ ps, Scoped.getHostnameToPathPrefixes seeds !! hostname x = Some ps ∧
    Scoped.normalizePathPrefix (JS.or_else (pathname x) "/") ∈ ps.
Proof.
  intros Hs Hx. apply list_elem_of_split in Hs as (l1 & l2 & ->).
  assert (∃ ps, Scoped.getHostnameToPathPrefixes (l1 ++ [s]) !! hostname x =
                  Some ps ∧
                Scoped.normalizePathPrefix (JS.or_else (pathname x) "/") ∈ ps)
    as (ps & Hps & Hin).
  { rewrite getHostnameToPathPrefixes_snoc. unfold Scoped.addPrefix.
    rewrite Hx, lookup_insert_eq. eexists. split; [done|].
    match goal with |- context [bool_decide ?P] =>
      destruct (decide P) as [Hin|Hin] end.
    - by rewrite (bool_decide_eq_true_2 _ Hin).
    - rewrite (bool_decide_eq_false_2 _ Hin), elem_of_app,
        list_elem_of_singleton. by right. }
  destruct (prefix_table_app_mono (l1 ++ [s]) l2 _ ps Hps) as (ps' & Hps' & Hsub).
  rewrite <-(assoc_L (++)) in Hps'. simpl in Hps'. exists ps'. auto.
Qed.

Lemma prefix_table_dom (seeds : list string) (h : string) :
  is_Some (Scoped.getHostnameToPathPrefixes seeds !! h) ↔
  h ∈ getAllowedHostnames seeds.
Proof.
  rewrite elem_of_getAllowedHostnames. split.
  - intros [ps Hps]. destruct (prefix_table_inv seeds h ps Hps) as (_ & Hne & Hin).
    destruct ps as [|p ps]; [done|].
    destruct (Hin p) as (s & x & ? & ? & ? & _); [apply list_elem_of_here|].
    by exists s, x.
  - intros (s & x & Hs & Hx & <-).
    destruct (prefix_table_complete seeds s x Hs Hx) as (ps & -> & _). by eexists.
Qed.

End TableFacts.

(** X1. [getAllowedHostnames] holds exactly the host names of the seeds
    that parse: a seed that does not parse adds nothing, and no other host
    name gets in. *)
Theorem allowed_hostnames_exact {URL : Type} `{!URLApi URL}
    (seeds : list string) (h : string) :
  h ∈ getAllowedHostnames seeds ↔
  ∃ s x, s ∈ seeds ∧ newURL s = Some x ∧ hostname x = h.
Proof.
  induction seeds as [|s seeds IH] using rev_ind.
  { unfold getAllowedHostnames. simpl. split; [by intros ?%not_elem_of_empty|].
    by intros (? & ? & ?%not_elem_of_nil & _). }
  rewrite getAllowedHostnames_snoc.
  assert (h ∈ getAllowedHostnames seeds →
          ∃ s' x, s' ∈ seeds ++ [s] ∧ newURL s' = Some x ∧ hostname x = h) as Hold.
  { intros (s' & x' & ? & ?)%IH. exists s', x'. rewrite elem_of_app. auto. }
  split.
  - destruct (newURL s) as [x|] eqn:Hx; [|done].
    intros [-> | Hin]%elem_of_add; [|auto].
    exists s, x. rewrite elem_of_app, list_elem_of_singleton. auto.
  - intros (s' & x' & [Hin | ->%list_elem_of_singleton]%elem_of_app & Hx' & Hh).
    + assert (h ∈ getAllowedHostnames seeds) by (apply IH; eauto).
      destruct (newURL s); [apply elem_of_add; auto | done].
    + rewrite Hx'. apply elem_of_add. auto.
Qed.

(** X2. The path prefix table and the scope token table have an entry for
    exactly the allowed host names. *)
Theorem tables_cover_allowed_hosts {URL : Type} `{!URLApi URL}
    (seeds : list string) :
  dom (Scoped.getHostnameToPathPrefixes seeds) = getAllowedHostnames seeds ∧
  dom (Scoped.getHostnameToScopeTokens (Scoped.getHostnameToPathPrefixes seeds)) =
    getAllowedHostnames seeds.
Proof.
  assert (dom (Scoped.getHostnameToPathPrefixes seeds) = getAllowedHostnames seeds)
    as Hdom.
  { apply set_eq. intros h. by rewrite elem_of_dom, prefix_table_dom. }
  split; [done|]. unfold Scoped.getHostnameToScopeTokens. by rewrite dom_fmap_L.
Qed.

(** X3. Every seed that parses has its normalised path recorded under its
    host name, and an entry of the table never holds a prefix twice and is
    never empty. *)
Theorem prefix_table_records_each_seed {URL : Type} `{!URLApi URL}
    (seeds : list string) (s : string) (x : URL) :
  s ∈ seeds → newURL s = Some x →
  ∃ ps, Scoped.getHostnameToPathPrefixes seeds !! hostname x = Some ps ∧
    Scoped.normalizePathPrefix (JS.or_else (pathname x) "/") ∈ ps ∧
    NoDup ps ∧ ps ≠ [].
Proof.
  intros Hs Hx. destruct (prefix_table_complete seeds s x Hs Hx) as (ps & Hps & Hin).
  exists ps. destruct (prefix_table_inv seeds _ ps Hps) as (Hnd & Hne & _). auto.
Qed.

(** X3 at three seeds of one host, two of them with the same path. *)
Lemma prefix_table_records_each_seed_witness :
  let seeds := ["https://example.com/dubai/"; "https://example.com/abu-dhabi";
                "https://example.com/dubai"] in
  let x := SimpleURL.mk "https" (Some "example.com") "/dubai" None None in
  ∃ ps, Scoped.getHostnameToPathPrefixes seeds !! hostname x = Some ps ∧
    Scoped.normalizePathPrefix (JS.or_else (pathname x) "/") ∈ ps ∧
    NoDup ps ∧ ps ≠ [].
Proof.
  cbv zeta.
  apply (prefix_table_records_each_seed _ "https://example.com/dubai").
  - do 2 apply list_elem_of_further. apply list_elem_of_here.
  - vm_compute. reflexivity.
Defined.

(** X4. Every seed that parses is in scope of the tables built from the
    seed list, with or without [sameDomainOnly]. *)
Theorem seeds_are_in_scope {URL : Type} `{!URLApi URL}
    (seeds : list string) (sdo : bool) (s : string) (x : URL) :
  s ∈ seeds → newURL s = Some x →
  Scoped.isInScope x sdo (getAllowedHostnames seeds)
    (Scoped.getHostnameToPathPrefixes seeds) = true.
Proof.
  intros Hs Hx. apply isInScope_true. split.
  - intros _. apply elem_of_getAllowedHostnames. by exists s, x.
  - intros ps Hps _.
    destruct (prefix_table_complete seeds s x Hs Hx) as (ps' & Hps' & Hin).
    assert (ps' = ps) as -> by congruence.
    eexists _, "". split; [done|]. by rewrite str_app_nil_r.
Qed.

(** X4 at a seed without a trailing slash, among other seeds. *)
Lemma seeds_are_in_scope_witness :
  let seeds := ["https://example.com/dubai/"; "not a url";
                "https://example.com/Abu-Dhabi"] in
  Scoped.isInScope
    (SimpleURL.mk "https" (Some "example.com") "/Abu-Dhabi" None None) true
    (getAllowedHostnames (URL := SimpleURL.url) seeds)
    (Scoped.getHostnameToPathPrefixes seeds) = true.
Proof.
  cbv zeta.
  apply (seeds_are_in_scope _ true "https://example.com/Abu-Dhabi").
  - do 2 apply list_elem_of_further. apply list_elem_of_here.
  - vm_compute. reflexivity.
Defined.

(** X5. With [sameDomainOnly], adding seeds never takes a URL out of scope:
    what is in scope for a seed list stays in scope for every longer
    list. *)
Theorem more_seeds_keep_scope {URL : Type} `{!URLApi URL}
    (seeds more : list string) (u : URL) :
  Scoped.isInScope u true (getAllowedHostnames seeds)
    (Scoped.getHostnameToPathPrefixes seeds) = true →
  Scoped.isInScope u true (getAllowedHostnames (seeds ++ more))
    (Scoped.getHostnameToPathPrefixes (seeds ++ more)) = true.
Proof.
  intros [Hhost Hpre]%isInScope_true. specialize (Hhost eq_refl).
  apply isInScope_true. split.
  - intros _. apply elem_of_getAllowedHostnames.
    apply elem_of_getAllowedHostnames in Hhost as (s & x & Hs & Hx).
    exists s, x. rewrite elem_of_app. auto.
  - intros ps' Hps' _.
    apply prefix_table_dom in Hhost as [ps Hps].
    destruct (prefix_table_inv seeds _ ps Hps) as (_ & Hne & _).
    destruct (Hpre ps Hps Hne) as (p & r & Hp & Hr).
    destruct (prefix_table_app_mono seeds more _ ps Hps) as (ps2 & Hps2 & Hsub).
    assert (ps2 = ps') as -> by congruence.
    exists p, r. auto.
Qed.

(** X5 at a page under [/dubai/], before and after a second seed of the
    same host is added. *)
Lemma more_seeds_keep_scope_witness :
  Scoped.isInScope
    (SimpleURL.mk "https" (Some "example.com") "/dubai/villas" None None) true
    (getAllowedHostnames (URL := SimpleURL.url)
       (["https://example.com/dubai/"] ++ ["https://example.com/sharjah/"]))
    (Scoped.getHostnameToPathPrefixes
       (["https://example.com/dubai/"] ++ ["https://example.com/sharjah/"])) = true.
Proof.
  apply (more_seeds_keep_scope ["https://example.com/dubai/"]).
  vm_compute. reflexivity.
Defined.

(** * Further properties of the string functions *)

Lemma trimEnd_idemp (s : string) : JS.trimEnd (JS.trimEnd s) = JS.trimEnd s.
Proof.
  induction s as [|c s IH]; [done|]. simpl.
  destruct (JS.is_white c && bool_decide (JS.trimEnd s = "")) eqn:Hc; [done|].
  simpl. by rewrite IH, Hc.
Qed.

Lemma trimStart_trimEnd (s : string) :
  JS.trimStart (JS.trimEnd (JS.trimStart s)) = JS.trimEnd (JS.trimStart s).
Proof.
  induction s as [|c s IH]; [done|]. simpl.
  destruct (JS.is_white c) eqn:Hc; [done|].
  simpl. rewrite Hc. simpl. by rewrite Hc.
Qed.

Lemma trim_idemp (s : string) : JS.trim (JS.trim s) = JS.trim s.
Proof. unfold JS.trim. by rewrite trimStart_trimEnd, trimEnd_idemp. Qed.

Lemma trimEnd_slash (s : string) :
  JS.endsWith s "/" = true → JS.trimEnd s = s.
Proof.
  induction s as [|c s IH]; [done|]. simpl.
  rewrite orb_true_iff, bool_decide_eq_true. intros [[= -> ->] | Hs]; [done|].
  rewrite (IH Hs). destruct s as [|d s]; [done|].
  by rewrite (bool_decide_eq_false_2 (String d s = "")), andb_false_r.
Qed.

Lemma trim_slashes (s : string) :
  JS.startsWith s "/" = true → JS.endsWith s "/" = true → JS.trim s = s.
Proof.
  intros [r ->]%startsWith_spec Hend. unfold JS.trim.
  change (JS.trimStart ("/" +:+ r)) with ("/" +:+ r). by apply trimEnd_slash.
Qed.

Lemma toLowerCase_app (s t : string) :
  JS.toLowerCase (s +:+ t) = JS.toLowerCase s +:+ JS.toLowerCase t.
Proof.
  induction s as [|c s IH]; [done|].
  rewrite str_app_cons. simpl. by rewrite IH.
Qed.

Lemma str_snoc_inj (s t : string) (c d : ascii) :
  s +:+ String c "" = t +:+ String d "" → s = t ∧ c = d.
Proof.
  revert t. induction s as [|a s IH]; intros [|b t] Heq.
  - by injection Heq as ->.
  - rewrite str_app_cons in Heq. injection Heq as -> Heq. by destruct t.
  - rewrite str_app_cons in Heq. injection Heq as -> Heq. by destruct s.
  - rewrite !str_app_cons in Heq. injection Heq as -> Heq.
    destruct (IH _ Heq) as [-> ->]. done.
Qed.

Lemma endsWith_app (a s p : string) :
  JS.endsWith s p = true → JS.endsWith (a +:+ s) p = true.
Proof.
  intros [r ->]%endsWith_spec. apply endsWith_spec. exists (a +:+ r).
  by rewrite str_app_assoc.
Qed.

Lemma nonHtmlExts_no_slash (ext : string) :
  ext ∈ Scoped.nonHtmlExts →
  ∃ e c, ext = e +:+ String c "" ∧ c ≠ "/"%char.
Proof.
  unfold Scoped.nonHtmlExts. intros Hext.
  repeat (apply elem_of_cons in Hext as [-> | Hext];
    [match goal with |- ∃ e c, ?x = _ ∧ _ =>
       let n := eval vm_compute in (String.length x - 1) in
       exists (String.substring 0 n x);
       let c := eval vm_compute in (String.get n x) in
       match c with Some ?c' => exists c' end
     end; by split|]).
  by apply not_elem_of_nil in Hext.
Qed.

Lemma isLikelyBinaryAsset_true (p : string) :
  Scoped.isLikelyBinaryAsset p = true ↔
  ∃ ext r, ext ∈ Scoped.nonHtmlExts ∧ JS.toLowerCase p = r +:+ ext.
Proof.
  unfold Scoped.isLikelyBinaryAsset. rewrite existsb_exists. split.
  - intros (ext & Hin & [r Hr]%endsWith_spec). exists ext, r.
    by rewrite list_elem_of_In.
  - intros (ext & r & Hin & Hr). exists ext. rewrite <-list_elem_of_In.
    split; [done|]. apply endsWith_spec. by exists r.
Qed.

(** X6. [normalizePathPrefix] is idempotent, and it leaves alone every
    path that already starts and ends with ["/"]. *)
Theorem normalizePathPrefix_idempotent :
  (∀ p, JS.startsWith p "/" = true → JS.endsWith p "/" = true →
        Scoped.normalizePathPrefix p = p) ∧
  (∀ p, Scoped.normalizePathPrefix (Scoped.normalizePathPrefix p) =
        Scoped.normalizePathPrefix p).
Proof.
  assert (∀ p, JS.startsWith p "/" = true → JS.endsWith p "/" = true →
               Scoped.normalizePathPrefix p = p) as Hfix.
  { intros p Hs He. unfold Scoped.normalizePathPrefix.
    rewrite (trim_slashes p Hs He), Hs. cbn [negb]. rewrite He. cbn [negb].
    apply startsWith_spec in Hs as [r ->]. reflexivity. }
  split; [done|]. intros p.
  apply Hfix; [apply normalizePathPrefix_starts | apply normalizePathPrefix_ends].
Qed.

(** X7. The asset classifier looks at the lower-cased end of the path
    only: it holds exactly when the lower-cased path ends with one of the
    listed extensions, it does not depend on letter case or on what precedes
    a classified path, and a path that ends with ["/"] is never an asset. *)
Theorem asset_classifier_suffix_only :
  (∀ p, Scoped.isLikelyBinaryAsset p = true ↔
        ∃ ext r, ext ∈ Scoped.nonHtmlExts ∧ JS.toLowerCase p = r +:+ ext) ∧
  (∀ p, Scoped.isLikelyBinaryAsset (JS.toLowerCase p) =
        Scoped.isLikelyBinaryAsset p) ∧
  (∀ a p, Scoped.isLikelyBinaryAsset p = true →
          Scoped.isLikelyBinaryAsset (a +:+ p) = true) ∧
  (∀ p, Scoped.isLikelyBinaryAsset (p +:+ "/") = false).
Proof.
  split; [apply isLikelyBinaryAsset_true|]. split; [|split].
  - intros p. unfold Scoped.isLikelyBinaryAsset. by rewrite toLowerCase_idemp.
  - intros a p (ext & r & Hext & Hr)%isLikelyBinaryAsset_true.
    apply isLikelyBinaryAsset_true. exists ext, (JS.toLowerCase a +:+ r).
    split; [done|]. by rewrite toLowerCase_app, Hr, str_app_assoc.
  - intros p. destruct (Scoped.isLikelyBinaryAsset (p +:+ "/")) eqn:Hp; [|done].
    apply isLikelyBinaryAsset_true in Hp as (ext & r & Hext & Hr).
    apply nonHtmlExts_no_slash in Hext as (e & c & -> & Hc).
    rewrite toLowerCase_app, <-str_app_assoc in Hr.
    apply str_snoc_inj in Hr as [_ Hr]. by destruct Hc.
Qed.

(** The scheme filter works on the lower-cased link, and it never skips a
    link that starts with [http], in whatever letter case. *)
Lemma scheme_filter_keeps_http :
  (∀ h, isSkippableScheme (JS.toLowerCase h) = isSkippableScheme h) ∧
  (∀ h r, JS.toLowerCase h = "http" +:+ r → isSkippableScheme h = false).
Proof.
  split.
  - intros h. unfold isSkippableScheme. by rewrite toLowerCase_idemp.
  - intros h r Hr. unfold isSkippableScheme. by rewrite Hr.
Qed.

(** * Scope tokens and path segments *)

Lemma includes_char_cons (y c : ascii) (h : string) :
  JS.includes (String y h) (String c "") =
  bool_decide (y = c) || JS.includes h (String c "").
Proof. simpl. by rewrite andb_true_r. Qed.

Lemma includes_cons (y : ascii) (s t : string) :
  JS.includes s t = true → JS.includes (String y s) t = true.
Proof. intros Hs. simpl. by rewrite Hs, orb_true_r. Qed.

Lemma includes_app_r (s w t : string) :
  JS.includes s t = true → JS.includes (s +:+ w) t = true.
Proof.
  intros (a & b & ->)%includes_spec. apply includes_spec.
  exists a, (b +:+ w). by rewrite !str_app_assoc.
Qed.

Lemma split_head_prefix (c : ascii) (s h : string) (t : list string) :
  JS.split c s = h :: t →
  JS.includes h (String c "") = false ∧ ∃ b, s = h +:+ b.
Proof.
  intros Hs. pose proof (split_head_no_sep c s) as Hno.
  unfold JS.split0 in Hno. rewrite Hs in Hno. split; [done|].
  destruct (split_cut c s) as [t' Hcut]. rewrite Hs in Hcut.
  injection Hcut as -> _.
  destruct (SimpleURL.cut c s) as [a r] eqn:Hc.
  apply cut_spec in Hc as [_ ->]. by eexists.
Qed.

Lemma split_elem_substring (c : ascii) (s x : string) :
  x ∈ JS.split c s →
  JS.includes x (String c "") = false ∧ ∃ a b, s = a +:+ x +:+ b.
Proof.
  revert x. induction s as [|y s IH]; intros x; simpl.
  - intros ->%list_elem_of_singleton. split; [done | by exists "", ""].
  - destruct (bool_decide (y = c)) eqn:Hy.
    + intros [-> | Hx]%elem_of_cons; [split; [done | by exists "", (String y s)]|].
      destruct (IH x Hx) as (Hno & a & b & ->). split; [done|].
      by exists (String y a), b.
    + destruct (JS.split c s) as [|h t] eqn:Hs.
      { destruct (split_cut c s) as [t' Ht']. by rewrite Hs in Ht'. }
      intros [-> | Hx]%elem_of_cons.
      * destruct (split_head_prefix c s h t Hs) as (Hno & b & ->).
        split; [by rewrite includes_char_cons, Hy | by exists "", b].
      * destruct (IH x) as (Hno & a & b & ->); [by apply list_elem_of_further|].
        split; [done|]. by exists (String y a), b.
Qed.

Lemma first_segment_spec (p seg : string) :
  head (JS.filterBoolean (JS.split "/" p)) = Some seg →
  seg ≠ "" ∧ JS.includes seg "/" = false ∧ ∃ a b, p = a +:+ seg +:+ b.
Proof.
  intros Hhead.
  assert (seg ∈ JS.filterBoolean (JS.split "/" p)) as Hin.
  { destruct (JS.filterBoolean _) as [|x l]; [done|].
    injection Hhead as ->. apply list_elem_of_here. }
  unfold JS.filterBoolean in Hin.
  apply list_elem_of_In, filter_In in Hin as [Hin Hne].
  apply list_elem_of_In, split_elem_substring in Hin as [Hno Hsub].
  split; [|done]. unfold JS.truthy in Hne.
  by apply negb_true_iff, bool_decide_eq_false in Hne.
Qed.

Lemma lower_ascii_slash (c : ascii) :
  bool_decide (JS.lower_ascii c = "/"%char) = bool_decide (c = "/"%char).
Proof. each_ascii c. Qed.

Lemma toLowerCase_no_slash (s : string) :
  JS.includes (JS.toLowerCase s) "/" = JS.includes s "/".
Proof.
  induction s as [|c s IH]; [done|].
  cbn [JS.toLowerCase]. by rewrite !includes_char_cons, lower_ascii_slash, IH.
Qed.

Lemma addToken_elem (tokens : gset string) (p t : string) :
  t ∈ Scoped.addToken tokens p ↔
  t ∈ tokens ∨
  ∃ seg, head (JS.filterBoolean (JS.split "/" p)) = Some seg ∧
    t = JS.toLowerCase seg.
Proof.
  unfold Scoped.addToken.
  destruct (head (JS.filterBoolean (JS.split "/" p))) as [seg|] eqn:Hhead; simpl.
  - destruct (first_segment_spec p seg Hhead) as (Hne & _).
    unfold JS.truthy. rewrite (bool_decide_eq_false_2 _ Hne). simpl.
    rewrite elem_of_add. split.
    + intros [-> | Ht]; [right; by exists seg | by left].
    + intros [Ht | (seg' & [= <-] & ->)]; auto.
  - split; [by left | intros [Ht | (seg & ? & _)]; done].
Qed.

Lemma foldl_addToken_elem (tokens : gset string) (ps : list string) (t : string) :
  t ∈ foldl Scoped.addToken tokens ps ↔
  t ∈ tokens ∨
  ∃ p seg, p ∈ ps ∧ head (JS.filterBoolean (JS.split "/" p)) = Some seg ∧
    t = JS.toLowerCase seg.
Proof.
  revert tokens. induction ps as [|p ps IH]; intros tokens; simpl.
  - split; [by left | intros [Ht | (p & seg & ?%not_elem_of_nil & _)]; done].
  - rewrite IH, addToken_elem. split.
    + intros [[Ht | (seg & Hseg & ->)] | (p' & seg & Hp' & Hseg & ->)].
      * by left.
      * right. exists p, seg. split; [apply list_elem_of_here | done].
      * right. exists p', seg. split; [by apply list_elem_of_further | done].
    + intros [Ht | (p' & seg & [-> | Hp']%elem_of_cons & Hseg & ->)].
      * by left; left.
      * left. right. by exists seg.
      * right. by exists p', seg.
Qed.

Lemma includes_slash_cons (s seg : string) :
  seg ≠ "" → JS.includes seg "/" = false →
  JS.includes (String "/" s) seg = true → JS.includes s seg = true.
Proof.
  intros Hne Hno. destruct seg as [|b seg]; [done|].
  rewrite includes_char_cons in Hno. apply orb_false_iff in Hno as [Hb _].
  apply bool_decide_eq_false in Hb. simpl.
  rewrite (bool_decide_eq_false_2 ("/"%char = b)) by congruence. done.
Qed.

Lemma startsWith_snoc_slash (s seg : string) :
  JS.includes seg "/" = false →
  JS.startsWith (s +:+ "/") seg = true → JS.startsWith s seg = true.
Proof.
  revert s. induction seg as [|b seg IH]; intros s Hno; [done|].
  rewrite includes_char_cons in Hno. apply orb_false_iff in Hno as [Hb Hno].
  apply bool_decide_eq_false in Hb.
  destruct s as [|a s]; simpl.
  - rewrite (bool_decide_eq_false_2 ("/"%char = b)) by congruence. done.
  - rewrite !andb_true_iff. intros [Ha Hs].
    split; [done|]. by apply IH.
Qed.

Lemma includes_snoc_slash (s seg : string) :
  seg ≠ "" → JS.includes seg "/" = false →
  JS.includes (s +:+ "/") seg = true → JS.includes s seg = true.
Proof.
  intros Hne Hno. induction s as [|a s IH].
  - intros Hs. apply (includes_slash_cons "" seg Hne Hno) in Hs.
    by destruct seg.
  - rewrite str_app_cons. simpl. rewrite !orb_true_iff. intros [Hs | Hs].
    + left. apply (startsWith_snoc_slash (String a s) seg Hno).
      by rewrite str_app_cons.
    + right. by apply IH.
Qed.

Lemma trimStart_includes (s t : string) :
  JS.includes (JS.trimStart s) t = true → JS.includes s t = true.
Proof.
  induction s as [|c s IH]; [done|]. simpl JS.trimStart.
  destruct (JS.is_white c); [|done]. intros Hs. by apply includes_cons, IH.
Qed.

Lemma trimEnd_prefix (s : string) : ∃ w, s = JS.trimEnd s +:+ w.
Proof.
  induction s as [|c s [w IH]]; [by exists ""|]. simpl.
  destruct (JS.is_white c && bool_decide (JS.trimEnd s = "")).
  - by exists (String c s).
  - exists w. by rewrite str_app_cons, <-IH.
Qed.

Lemma trim_includes (s t : string) :
  JS.includes (JS.trim s) t = true → JS.includes s t = true.
Proof.
  unfold JS.trim. intros Ht. apply trimStart_includes.
  destruct (trimEnd_prefix (JS.trimStart s)) as [w Hw]. rewrite Hw.
  by apply includes_app_r.
Qed.

Lemma normalizePathPrefix_includes (P seg : string) :
  seg ≠ "" → JS.includes seg "/" = false →
  JS.includes (Scoped.normalizePathPrefix P) seg = true →
  JS.includes P seg = true.
Proof.
  intros Hne Hno. unfold Scoped.normalizePathPrefix.
  destruct (JS.truthy P); cbn [negb].
  2:{ intros Hs. apply (includes_slash_cons "" seg Hne Hno) in Hs.
      by destruct seg. }
  set (T := JS.trim P).
  assert (JS.includes
            (if negb (JS.startsWith T "/") then "/" +:+ T else T) seg = true →
          JS.includes P seg = true) as Hfirst.
  { destruct (negb _); intros Hs; apply trim_includes; [|done].
    by apply (includes_slash_cons T seg Hne Hno). }
  destruct (negb (JS.endsWith _ "/")); intros Hs; apply Hfirst; [|done].
  by apply (includes_snoc_slash _ seg Hne Hno).
Qed.

Lemma includes_toLowerCase (s t : string) :
  JS.includes s t = true →
  JS.includes (JS.toLowerCase s) (JS.toLowerCase t) = true.
Proof.
  intros (a & b & ->)%includes_spec. apply includes_spec.
  exists (JS.toLowerCase a), (JS.toLowerCase b). by rewrite !toLowerCase_app.
Qed.

(** X8. The scope tokens of a host are exactly the lower-cased first
    non-empty segments of its prefixes; a token is never empty, is
    lower-cased and holds no ["/"]. *)
Theorem scope_tokens_are_first_segments (hp : gmap string (list string))
    (h : string) (tokens : gset string) :
  Scoped.getHostnameToScopeTokens hp !! h = Some tokens →
  ∃ ps, hp !! h = Some ps ∧
    (∀ t, t ∈ tokens ↔
       ∃ p seg, p ∈ ps ∧
         head (JS.filterBoolean (JS.split "/" p)) = Some seg ∧
         t = JS.toLowerCase seg) ∧
    (∀ t, t ∈ tokens →
       t ≠ "" ∧ JS.toLowerCase t = t ∧ JS.includes t "/" = false).
Proof.
  rewrite scope_tokens_lookup. destruct (hp !! h) as [ps|]; [|done].
  intros [= <-]. exists ps. split; [done|].
  assert (∀ t, t ∈ foldl Scoped.addToken ∅ ps ↔
            ∃ p seg, p ∈ ps ∧
              head (JS.filterBoolean (JS.split "/" p)) = Some seg ∧
              t = JS.toLowerCase seg) as Hchar.
  { intros t. rewrite foldl_addToken_elem. split; [|by right].
    by intros [?%not_elem_of_empty|]. }
  split; [done|]. intros t (p & seg & _ & Hseg & ->)%Hchar.
  destruct (first_segment_spec p seg Hseg) as (Hne & Hno & _).
  split; [by rewrite toLowerCase_nil|].
  by rewrite toLowerCase_idemp, toLowerCase_no_slash.
Qed.

(** X8 at a host with the prefixes [/Dubai/villas/], [/] and [/dubai/]. *)
Lemma scope_tokens_are_first_segments_witness :
  let hp : gmap string (list string) :=
    {[ "example.com" := ["/Dubai/villas/"; "/"; "/dubai/"] ]} in
  ∃ ps, hp !! "example.com" = Some ps ∧
    (∀ t, t ∈ ({[ "dubai" ]} : gset string) ↔
       ∃ p seg, p ∈ ps ∧
         head (JS.filterBoolean (JS.split "/" p)) = Some seg ∧
         t = JS.toLowerCase seg) ∧
    (∀ t, t ∈ ({[ "dubai" ]} : gset string) →
       t ≠ "" ∧ JS.toLowerCase t = t ∧ JS.includes t "/" = false).
Proof.
  cbv zeta.
  apply (scope_tokens_are_first_segments
           {[ "example.com" := ["/Dubai/villas/"; "/"; "/dubai/"] ]}
           "example.com" {[ "dubai" ]}).
  vm_compute. reflexivity.
Defined.

(** X9. The asset rule relaxes the page rule: an asset URL that the page
    variant of the scope policy admits is recorded as well, unless it was
    admitted through a prefix without a segment, such as the root ["/"]. *)
Theorem asset_rule_relaxes_page_rule {URL : Type} `{!URLApi URL}
    (seeds : list string) (sdo : bool) (u : URL) :
  let sc := Scoped.buildScope seeds sdo in
  Scoped.isLikelyBinaryAsset (pathname u) = true →
  Scoped.isInScope u (Scoped.sameDomainOnly sc) (Scoped.allowedHostnames sc)
    (Scoped.hostnameToPrefixes sc) = true →
  Scoped.shouldRecord sc u = true ∨
  ∃ ps p r, Scoped.hostnameToPrefixes sc !! hostname u = Some ps ∧ p ∈ ps ∧
    head (JS.filterBoolean (JS.split "/" p)) = None ∧
    Scoped.normalizePathPrefix (JS.or_else (pathname u) "/") = p +:+ r.
Proof.
  intros sc Hasset [Hhost Hpre]%isInScope_true.
  rewrite (shouldRecord_asset sc u Hasset).
  apply withinHost_true in Hhost. rewrite Hhost. cbn [andb].
  unfold sc, Scoped.buildScope in *.
  cbn [Scoped.hostnameToScopeTokens Scoped.hostnameToPrefixes] in *.
  set (hp := Scoped.getHostnameToPathPrefixes seeds) in *.
  destruct (hp !! hostname u) as [ps|] eqn:Hps.
  2:{ left. apply assetMatchesScope_true. right.
      by rewrite scope_tokens_lookup, Hps. }
  destruct (prefix_table_inv seeds _ ps Hps) as (_ & Hne & _).
  destruct (Hpre ps eq_refl Hne) as (p & r & Hp & Hr).
  destruct (head (JS.filterBoolean (JS.split "/" p))) as [seg|] eqn:Hseg.
  2:{ right. by exists ps, p, r. }
  left. apply assetMatchesScope_true. left.
  destruct (first_segment_spec p seg Hseg) as (Hsegne & Hno & a & b & Hab).
  assert (JS.includes (pathname u) seg = true) as Hinc.
  { assert (JS.includes (JS.or_else (pathname u) "/") seg = true) as Hor.
    { apply (normalizePathPrefix_includes _ seg Hsegne Hno).
      rewrite Hr, Hab. apply includes_spec. exists a, (b +:+ r).
      by rewrite !str_app_assoc. }
    unfold JS.or_else in Hor. destruct (JS.truthy (pathname u)); [done|].
    apply (includes_slash_cons "" seg Hsegne Hno) in Hor. by destruct seg. }
  apply includes_toLowerCase, includes_spec in Hinc as (a' & b' & Hlow).
  exists (JS.toLowerCase seg), a', b'. split; [|done].
  rewrite scope_tokens_lookup, Hps. simpl.
  apply foldl_addToken_elem. right. by exists p, seg.
Qed.

(** X9 at an asset under the seed path, whose name does not matter. *)
Lemma asset_rule_relaxes_page_rule_witness :
  let sc := Scoped.buildScope (URL := SimpleURL.url)
              ["https://example.com/Dubai/"] true in
  let u := SimpleURL.mk "https" (Some "example.com") "/Dubai/plans/A1.PDF"
             None None in
  Scoped.shouldRecord sc u = true ∨
  ∃ ps p r, Scoped.hostnameToPrefixes sc !! hostname u = Some ps ∧ p ∈ ps ∧
    head (JS.filterBoolean (JS.split "/" p)) = None ∧
    Scoped.normalizePathPrefix (JS.or_else (pathname u) "/") = p +:+ r.
Proof.
  cbv zeta.
  apply (asset_rule_relaxes_page_rule ["https://example.com/Dubai/"] true
           (SimpleURL.mk "https" (Some "example.com") "/Dubai/plans/A1.PDF"
              None None)).
  - vm_compute. reflexivity.
  - vm_compute. reflexivity.
Defined.

(** * The discovery set as a function of the links seen *)

Lemma foldl_additive_elem {A : Type} (f : gset string → A → gset string)
    (g : A → gset string) (l : list A) (D : gset string) (x : string) :
  (∀ D' a y, y ∈ f D' a ↔ y ∈ D' ∨ y ∈ g a) →
  x ∈ foldl f D l ↔ x ∈ D ∨ ∃ a, a ∈ l ∧ x ∈ g a.
Proof.
  intros Hf. revert D. induction l as [|a l IH]; intros D; simpl.
  - split; [by left | intros [|(a & ?%not_elem_of_nil & _)]; done].
  - rewrite IH, Hf. split.
    + intros [[HD | Ha] | (a' & Ha' & Hx)].
      * by left.
      * right. exists a. split; [apply list_elem_of_here | done].
      * right. exists a'. split; [by apply list_elem_of_further | done].
    + intros [HD | (a' & [-> | Ha']%elem_of_cons & Hx)].
      * by left; left.
      * by left; right.
      * right. by exists a'.
Qed.

Section HandlerFacts.
Context {URL : Type} `{!URLApi URL}.

Lemma scoped_processLink_elem (sc : Scoped.Scope) (D : gset string)
    (h x : string) :
  x ∈ Scoped.processLink sc D h ↔
  x ∈ D ∨ ∃ u, Scoped.parseLink h = Some u ∧
    Scoped.shouldRecord sc u = true ∧ x = href u.
Proof.
  unfold Scoped.processLink. destruct (Scoped.parseLink h) as [u|].
  - destruct (Scoped.shouldRecord sc u) eqn:Hrec.
    + rewrite elem_of_add. split.
      * intros [-> | HD]; [right; by exists u | by left].
      * intros [HD | (u' & [= <-] & _ & ->)]; auto.
    + split; [by left|]. intros [HD | (u' & [= <-] & ? & _)]; [done | congruence].
  - split; [by left | intros [HD | (u' & ? & _)]; done].
Qed.

Lemma scoped_requestHandler_elem (sc : Scoped.Scope) (D : gset string)
    (pageLinks : list string) (x : string) :
  x ∈ Scoped.requestHandler sc D pageLinks ↔
  x ∈ D ∨ ∃ h u, h ∈ pageLinks ∧ Scoped.parseLink h = Some u ∧
    Scoped.shouldRecord sc u = true ∧ x = href u.
Proof.
  unfold Scoped.requestHandler.
  rewrite (foldl_additive_elem _ (Scoped.processLink sc ∅)).
  - split; (intros [HD | Hex]; [by left | right]).
    + destruct Hex as (h & Hh & [?%not_elem_of_empty | (u & ?)]%scoped_processLink_elem);
        [done | by exists h, u].
    + destruct Hex as (h & u & Hh & Hu). exists h. split; [done|].
      apply scoped_processLink_elem. right. by exists u.
  - intros D' h y. rewrite !scoped_processLink_elem. split.
    + intros [HD | Hex]; [by left | by right; right].
    + intros [HD | [?%not_elem_of_empty | Hex]]; [by left | done | by right].
Qed.

Lemma scoped_visits_elem (sc : Scoped.Scope) (D : gset string)
    (visits : list (list string)) (x : string) :
  x ∈ foldl (Scoped.requestHandler sc) D visits ↔
  x ∈ D ∨ ∃ page h u, page ∈ visits ∧ h ∈ page ∧
    Scoped.parseLink h = Some u ∧ Scoped.shouldRecord sc u = true ∧ x = href u.
Proof.
  rewrite (foldl_additive_elem _ (Scoped.requestHandler sc ∅)).
  - split; (intros [HD | Hex]; [by left | right]).
    + destruct Hex as (page & Hp &
        [?%not_elem_of_empty | (h & u & ?)]%scoped_requestHandler_elem);
        [done | by exists page, h, u].
    + destruct Hex as (page & h & u & Hp & Hh). exists page. split; [done|].
      apply scoped_requestHandler_elem. right. by exists h, u.
  - intros D' page y. rewrite !scoped_requestHandler_elem. split.
    + intros [HD | Hex]; [by left | by right; right].
    + intros [HD | [?%not_elem_of_empty | Hex]]; [by left | done | by right].
Qed.

Lemma links_processLink_elem (sdo : bool) (allowed D : gset string)
    (h x : string) :
  x ∈ Links.processLink sdo allowed D h ↔
  x ∈ D ∨
  (isSkippableScheme h = false ∧ Links.normalizeHref h = Some x ∧
   (sdo = true → ∃ u, newURL x = Some u ∧ hostname u ∈ allowed)).
Proof.
  unfold Links.processLink. destruct (isSkippableScheme h).
  { split; [by left | by intros [|[? _]]]. }
  destruct (Links.normalizeHref h) as [absolute|].
  2:{ split; [by left | by intros [|(_ & ? & _)]]. }
  destruct sdo.
  - destruct (newURL absolute) as [u|] eqn:Hu.
    + destruct (decide (hostname u ∈ allowed)) as [Hin|Hout].
      * rewrite (bool_decide_eq_true_2 _ Hin). cbn [negb].
        rewrite elem_of_add. split.
        -- intros [-> | HD]; [right | by left].
           split; [done|]. split; [done|]. intros _. by exists u.
        -- intros [HD | (_ & [= ->] & _)]; auto.
      * rewrite (bool_decide_eq_false_2 _ Hout). cbn [negb].
        split; [by left|]. intros [HD | (_ & [= ->] & Hex)]; [done|].
        destruct (Hex eq_refl) as (u' & Hu' & Hin). congruence.
    + split; [by left|]. intros [HD | (_ & [= ->] & Hex)]; [done|].
      destruct (Hex eq_refl) as (u' & Hu' & _). congruence.
  - rewrite elem_of_add. split.
    + intros [-> | HD]; [right | by left]. by split.
    + intros [HD | (_ & [= ->] & _)]; auto.
Qed.

Lemma links_visits_elem (sdo : bool) (allowed D : gset string)
    (visits : list (list string)) (x : string) :
  x ∈ foldl (Links.requestHandler sdo allowed) D visits ↔
  x ∈ D ∨ ∃ page h, page ∈ visits ∧ h ∈ page ∧
    isSkippableScheme h = false ∧ Links.normalizeHref h = Some x ∧
    (sdo = true → ∃ u, newURL x = Some u ∧ hostname u ∈ allowed).
Proof.
  assert (∀ D' page y,
            y ∈ Links.requestHandler sdo allowed D' page ↔
            y ∈ D' ∨ ∃ h, h ∈ page ∧
              isSkippableScheme h = false ∧ Links.normalizeHref h = Some y ∧
              (sdo = true → ∃ u, newURL y = Some u ∧ hostname u ∈ allowed))
    as Hpage.
  { intros D' page y. unfold Links.requestHandler.
    rewrite (foldl_additive_elem _ (Links.processLink sdo allowed ∅)).
    - split; (intros [HD | Hex]; [by left | right]).
      + destruct Hex as (h & Hh &
          [?%not_elem_of_empty | ?]%links_processLink_elem); [done | by exists h].
      + destruct Hex as (h & Hh & Hrec). exists h. split; [done|].
        apply links_processLink_elem. by right.
    - intros D'' h z. rewrite !links_processLink_elem. split.
      + intros [HD | Hex]; [by left | by right; right].
      + intros [HD | [?%not_elem_of_empty | Hex]]; [by left | done | by right]. }
  rewrite (foldl_additive_elem _ (Links.requestHandler sdo allowed ∅)).
  - split; (intros [HD | Hex]; [by left | right]).
    + destruct Hex as (page & Hp & [?%not_elem_of_empty | (h & ?)]%Hpage);
        [done | by exists page, h].
    + destruct Hex as (page & h & Hp & Hh). exists page. split; [done|].
      apply Hpage. right. by exists h.
  - intros D' page y. rewrite !Hpage. split.
    + intros [HD | Hex]; [by left | by right; right].
    + intros [HD | [?%not_elem_of_empty | Hex]]; [by left | done | by right].
Qed.

End HandlerFacts.

(** X10. The array that the scoped crawler returns holds exactly the
    [href] of every link on a visited page that parses, is not skippable and
    is recorded; it depends on the set of links seen only, not on the order
    of the visits, the order of the links on a page or their repetitions.
    [visits] and [visits'] are what two engines deliver for the start
    URLs. *)
Theorem scoped_output_is_set_of_links {URL : Type} `{!URLApi URL}
    (env : ProcessEnv) (engine engine' : Engine)
    (visits visits' : list (list string)) :
  (∀ l x, engine (startUrlsOf env) = Some visits →
     Scoped.main env engine = Completed l →
     (x ∈ l ↔
      ∃ page h u, page ∈ visits ∧ h ∈ page ∧ Scoped.parseLink h = Some u ∧
        Scoped.shouldRecord
          (Scoped.buildScope (startUrlsOf env) (readSameDomainOnly env)) u = true ∧
        x = href u)) ∧
  (engine (startUrlsOf env) = Some visits →
   engine' (startUrlsOf env) = Some visits' →
   (∀ h, (∃ page, page ∈ visits ∧ h ∈ page) ↔
         (∃ page, page ∈ visits' ∧ h ∈ page)) →
   Scoped.main env engine = Scoped.main env engine').
Proof.
  unfold Scoped.main. destruct (parseStartUrls env) as [e|startUrls] eqn:Hparse;
    [by split|].
  assert (startUrls = startUrlsOf env) as ->.
  { unfold parseStartUrls in Hparse. destruct (bool_decide _); congruence. }
  set (sc := Scoped.buildScope _ _). split.
  - intros l x -> [= <-]. rewrite elem_of_sortedLinks, scoped_visits_elem.
    split; [intros [?%not_elem_of_empty|]; done | by right].
  - intros -> -> Hsame. do 2 f_equal. apply set_eq. intros x.
    rewrite !scoped_visits_elem.
    split; (intros [HD | (page & h & u & Hp & Hh & Hrest)]; [by left | right]).
    + destruct (proj1 (Hsame h)) as (page' & Hp' & Hh'); [by exists page|].
      by exists page', h, u.
    + destruct (proj2 (Hsame h)) as (page' & Hp' & Hh'); [by exists page|].
      by exists page', h, u.
Qed.

(** X11. The array that the plain crawler returns holds exactly the
    normalised text of every link on a visited page that is not skippable,
    parses and, with [sameDomainOnly], has an allowed host name; it depends
    on the set of links seen only.  [visits] and [visits'] are what two
    engines deliver for the start URLs. *)
Theorem links_output_is_set_of_links {URL : Type} `{!URLApi URL}
    (env : ProcessEnv) (engine engine' : Engine) (storage : Storage)
    (visits visits' : list (list string)) :
  (∀ l x, engine (startUrlsOf env) = Some visits →
     Links.main env engine storage = Completed l →
     (x ∈ l ↔
      ∃ page h, page ∈ visits ∧ h ∈ page ∧ isSkippableScheme h = false ∧
        Links.normalizeHref h = Some x ∧
        (readSameDomainOnly env = true →
         ∃ u, newURL x = Some u ∧
           hostname u ∈ getAllowedHostnames (startUrlsOf env)))) ∧
  (engine (startUrlsOf env) = Some visits →
   engine' (startUrlsOf env) = Some visits' →
   (∀ h, (∃ page, page ∈ visits ∧ h ∈ page) ↔
         (∃ page, page ∈ visits' ∧ h ∈ page)) →
   Links.main env engine storage = Links.main env engine' storage).
Proof.
  unfold Links.main. destruct (parseStartUrls env) as [e|startUrls] eqn:Hparse;
    [by split|].
  assert (startUrls = startUrlsOf env) as ->.
  { unfold parseStartUrls in Hparse. destruct (bool_decide _); congruence. }
  cbv zeta. split.
  - intros l x ->. destruct (storage _); [|done].
    intros [= <-]. rewrite elem_of_sortedLinks, links_visits_elem.
    split; [intros [?%not_elem_of_empty|]; done | by right].
  - intros -> -> Hsame.
    assert (foldl (Links.requestHandler (readSameDomainOnly env)
                     (getAllowedHostnames (startUrlsOf env))) ∅ visits =
            foldl (Links.requestHandler (readSameDomainOnly env)
                     (getAllowedHostnames (startUrlsOf env))) ∅ visits')
      as ->; [|done].
    apply set_eq. intros x.
    rewrite !links_visits_elem.
    split; (intros [HD | (page & h & Hp & Hh & Hrest)]; [by left | right]).
    + destruct (proj1 (Hsame h)) as (page' & Hp' & Hh'); [by exists page|].
      by exists page', h.
    + destruct (proj2 (Hsame h)) as (page' & Hp' & Hh'); [by exists page|].
      by exists page', h.
Qed.

(** * The frontier filters *)

Section FrontierFacts.
Context {URL : Type} `{!URLApi URL}.

Lemma links_transformRequestFunction_Some (sdo : bool) (allowed : gset string)
    (h r : string) :
  Links.transformRequestFunction sdo allowed h = Some r ↔
  ∃ u0, newURL h = Some u0 ∧ r = href (clearHash u0) ∧
    (protocol (clearHash u0) = "http:" ∨ protocol (clearHash u0) = "https:") ∧
    (sdo = true → hostname (clearHash u0) ∈ allowed).
Proof.
  destruct (newURL h) as [u0|] eqn:Hu0.
  2:{ unfold Links.transformRequestFunction. rewrite Hu0.
      split; [done | by intros (? & ? & _)]. }
  rewrite (links_transformRequestFunction_parsed sdo allowed h u0 Hu0).
  match goal with |- context [if ?b then _ else _] => set (acc := b) end.
  assert (acc = true ↔
    (protocol (clearHash u0) = "http:" ∨ protocol (clearHash u0) = "https:") ∧
    (sdo = true → hostname (clearHash u0) ∈ allowed)) as Hacc.
  { unfold acc.
    by rewrite andb_true_iff, orb_true_iff, !bool_decide_eq_true, withinHost_true. }
  destruct acc.
  - split.
    + intros [= <-]. exists u0. split; [done|]. split; [done|]. by apply Hacc.
    + by intros (? & [= <-] & -> & _).
  - split; [done|]. intros (? & [= <-] & _ & Hacc'). by apply Hacc in Hacc'.
Qed.

End FrontierFacts.

(** X12. The frontier filter of the plain crawler accepts a candidate
    exactly when it parses, its scheme is http or https and, with
    [sameDomainOnly], its host name is an allowed one; neither the path nor
    the extension plays a role, and the accepted request carries the
    serialised URL with the hash cleared. *)
Theorem links_frontier_filter_spec {URL : Type} `{!URLApi URL}
    (sdo : bool) (allowed : gset string) (h r : string) :
  Links.transformRequestFunction sdo allowed h = Some r ↔
  ∃ u0, newURL h = Some u0 ∧ r = href (clearHash u0) ∧
    (protocol (clearHash u0) = "http:" ∨ protocol (clearHash u0) = "https:") ∧
    (sdo = true → hostname (clearHash u0) ∈ allowed).
Proof.
  unfold Links.transformRequestFunction.
  destruct (newURL h) as [u0|]; [|split; [done | by intros (? & ? & _)]].
  cbv zeta. set (u := clearHash u0).
  destruct (decide (protocol u = "http:" ∨ protocol u = "https:")) as [Hp|Hp].
  - replace (negb (bool_decide (protocol u = "http:")) &&
             negb (bool_decide (protocol u = "https:"))) with false.
    2:{ symmetry. apply not_true_is_false.
        rewrite andb_true_iff, !negb_true_iff, !bool_decide_eq_false. tauto. }
    destruct (decide (hostname u ∈ allowed)) as [Hin|Hout].
    + rewrite (bool_decide_eq_true_2 _ Hin), andb_false_r. split.
      * intros [= <-]. by exists u0.
      * by intros (? & [= <-] & -> & _).
    + rewrite (bool_decide_eq_false_2 _ Hout), andb_true_r. destruct sdo.
      * split; [done|]. intros (? & [= <-] & _ & _ & Hin). by destruct Hout; apply Hin.
      * split; [intros [= <-]; by exists u0 | by intros (? & [= <-] & -> & _)].
  - replace (negb (bool_decide (protocol u = "http:")) &&
             negb (bool_decide (protocol u = "https:"))) with true.
    2:{ symmetry.
        rewrite andb_true_iff, !negb_true_iff, !bool_decide_eq_false. tauto. }
    split; [done|]. by intros (? & [= <-] & _ & ? & _).
Qed.

(** X13. Filtering is idempotent: under the laws of [URL], a request that
    a frontier filter has accepted is accepted again, unchanged, when its
    rewritten URL is filtered once more. *)
Theorem frontier_filter_idempotent {URL : Type} `{!URLApi URL} `{!URLLaws URL} :
  (∀ (sc : Scoped.Scope) (h r : string),
     Scoped.transformRequestFunction sc h = Some r →
     Scoped.transformRequestFunction sc r = Some r) ∧
  (∀ (sdo : bool) (allowed : gset string) (h r : string),
     Links.transformRequestFunction sdo allowed h = Some r →
     Links.transformRequestFunction sdo allowed r = Some r).
Proof.
  split.
  - intros sc h r (u0 & Hu0 & -> & Hrest)%transformRequestFunction_Some.
    apply transformRequestFunction_Some. exists (clearHash u0).
    rewrite clearHash_idemp. split; [by apply (reparse_clearHash h)|]. by split.
  - intros sdo allowed h r (u0 & Hu0 & -> & Hrest)%links_transformRequestFunction_Some.
    apply links_transformRequestFunction_Some. exists (clearHash u0).
    rewrite clearHash_idemp. split; [by apply (reparse_clearHash h)|]. by split.
Qed.

(** X13 at a candidate in mixed case with a fragment. *)
Lemma frontier_filter_idempotent_witness :
  let sc := Scoped.buildScope (URL := SimpleURL.url)
              ["https://example.com/dubai/"] true in
  let allowed := getAllowedHostnames (URL := SimpleURL.url)
                   ["https://example.com/dubai/"] in
  let r := "https://example.com/dubai/villas?page=2" in
  Scoped.transformRequestFunction sc r = Some r ∧
  Links.transformRequestFunction (URL := SimpleURL.url) true allowed r = Some r.
Proof.
  cbv zeta.
  destruct (frontier_filter_idempotent (URL := SimpleURL.url)) as [Hscoped Hlinks].
  split.
  - apply (Hscoped _ "HTTPS://Example.com/dubai/villas?page=2#top").
    vm_compute. reflexivity.
  - apply (Hlinks _ _ "HTTPS://Example.com/dubai/villas?page=2#top").
    vm_compute. reflexivity.
Defined.

(** X14. What is enqueued is reported: under the laws of [URL], a link
    that passes the scheme filter and whose request the frontier filter
    accepts is recorded in the discovery set, under the very URL that is
    enqueued.  This holds in both crawlers. *)
Theorem enqueued_links_are_recorded {URL : Type} `{!URLApi URL} `{!URLLaws URL} :
  (∀ (sc : Scoped.Scope) (D : gset string) (h r : string),
     isSkippableScheme h = false →
     Scoped.transformRequestFunction sc h = Some r →
     r ∈ Scoped.processLink sc D h) ∧
  (∀ (sdo : bool) (allowed D : gset string) (h r : string),
     isSkippableScheme h = false →
     Links.transformRequestFunction sdo allowed h = Some r →
     r ∈ Links.processLink sdo allowed D h).
Proof.
  split.
  - intros sc D h r Hskip
      (u0 & Hu0 & -> & _ & Hscope & Hpage)%transformRequestFunction_Some.
    apply scoped_processLink_elem. right. exists (clearHash u0).
    split; [|split; [|done]].
    + unfold Scoped.parseLink. rewrite Hskip.
      by apply scoped_normalizeHref_parsed.
    + by rewrite (shouldRecord_page sc _ Hpage).
  - intros sdo allowed D h r Hskip
      (u0 & Hu0 & -> & _ & Hhost)%links_transformRequestFunction_Some.
    rewrite (links_processLink_parsed sdo allowed D h u0 Hskip Hu0).
    apply withinHost_true in Hhost. rewrite Hhost. apply elem_of_add. by left.
Qed.

(** X14 at a page link with a fragment. *)
Lemma enqueued_links_are_recorded_witness :
  let sc := Scoped.buildScope (URL := SimpleURL.url)
              ["https://example.com/dubai/"] true in
  let allowed := getAllowedHostnames (URL := SimpleURL.url)
                   ["https://example.com/dubai/"] in
  let h := "https://example.com/dubai/villas#map" in
  "https://example.com/dubai/villas" ∈ Scoped.processLink sc ∅ h ∧
  "https://example.com/dubai/villas" ∈
    Links.processLink (URL := SimpleURL.url) true allowed ∅ h.
Proof.
  cbv zeta.
  destruct (enqueued_links_are_recorded (URL := SimpleURL.url)) as [Hscoped Hlinks].
  split.
  - apply Hscoped; vm_compute; reflexivity.
  - apply Hlinks; vm_compute; reflexivity.
Defined.

(** X15. In the plain crawler the two paths agree on every http or https
    link that passes the scheme filter: under the laws of [URL], the handler
    records the link exactly when the frontier filter accepts it. *)
Theorem links_paths_agree {URL : Type} `{!URLApi URL} `{!URLLaws URL}
    (sdo : bool) (allowed : gset string) (h : string) (u0 : URL) :
  isSkippableScheme h = false → newURL h = Some u0 →
  protocol (clearHash u0) = "http:" ∨ protocol (clearHash u0) = "https:" →
  (href (clearHash u0) ∈ Links.processLink sdo allowed ∅ h ↔
   Links.transformRequestFunction sdo allowed h = Some (href (clearHash u0))).
Proof.
  intros Hskip Hu0 Hproto.
  rewrite (links_processLink_parsed sdo allowed ∅ h u0 Hskip Hu0),
    links_transformRequestFunction_Some.
  destruct (negb sdo || bool_decide (hostname (clearHash u0) ∈ allowed)) eqn:Hhost.
  - pose proof (proj1 (withinHost_true _ _ _) Hhost) as Hin. split.
    + intros _. by exists u0.
    + intros _. apply elem_of_add. by left.
  - split; [by intros ?%not_elem_of_empty|].
    intros (u0' & Hu0' & _ & _ & Hhost'). assert (u0' = u0) as -> by congruence.
    pose proof (proj2 (withinHost_true _ _ _) Hhost'). congruence.
Qed.

(** X15 at a link on a host that is not allowed: neither path takes it. *)
Lemma links_paths_agree_witness :
  let allowed := getAllowedHostnames (URL := SimpleURL.url)
                   ["https://example.com/dubai/"] in
  let h := "https://other.com/dubai/#top" in
  "https://other.com/dubai/" ∈
    Links.processLink (URL := SimpleURL.url) true allowed ∅ h ↔
  Links.transformRequestFunction (URL := SimpleURL.url) true allowed h =
    Some "https://other.com/dubai/".
Proof.
  cbv zeta.
  set (u0 := SimpleURL.mk "https" (Some "other.com") "/dubai/" None (Some "top")).
  assert (isSkippableScheme "https://other.com/dubai/#top" = false) as Hskip
    by (vm_compute; reflexivity).
  assert (newURL "https://other.com/dubai/#top" = Some u0) as Hu0
    by (vm_compute; reflexivity).
  assert (protocol (clearHash u0) = "https:") as Hproto
    by (vm_compute; reflexivity).
  exact (links_paths_agree true _ _ u0 Hskip Hu0 (or_intror Hproto)).
Defined.

(** * Start URLs and the written output *)

(** X16. The start URLs that [parseStartUrls] returns are never empty
    strings and the list is never empty; command line arguments, when there
    is a non-empty one, are taken as they are and [START_URL] is ignored;
    otherwise every start URL is a trimmed piece of [START_URL] between
    commas. *)
Theorem start_urls_shape (env : ProcessEnv) (l : list string) :
  parseStartUrls env = inr l →
  l ≠ [] ∧ (∀ s, s ∈ l → s ≠ "") ∧
  (JS.filterBoolean (drop 2 (argv env)) ≠ [] →
   l = JS.filterBoolean (drop 2 (argv env))) ∧
  (JS.filterBoolean (drop 2 (argv env)) = [] →
   ∃ v, START_URL env = Some v ∧
     ∀ s, s ∈ l → JS.trim s = s ∧ ∃ piece, piece ∈ JS.split "," v ∧ s = JS.trim piece).
Proof.
  unfold parseStartUrls.
  destruct (decide (length (startUrlsOf env) = 0)) as [Hz|Hnz].
  { by rewrite (bool_decide_eq_true_2 _ Hz). }
  rewrite (bool_decide_eq_false_2 _ Hnz). intros [= <-].
  split; [by intros Hnil; rewrite Hnil in Hnz|].
  split; [apply startUrlsOf_nonempty_entries|].
  unfold startUrlsOf in *. set (cliArgs := JS.filterBoolean (drop 2 (argv env))) in *.
  destruct cliArgs as [|a cliArgs]; simpl in *.
  - split; [done|]. intros _. destruct (START_URL env) as [v|]; [|done].
    exists v. split; [done|]. intros s Hs. unfold JS.filterBoolean in Hs.
    apply list_elem_of_In, filter_In in Hs as [Hs _].
    apply list_elem_of_In, list_elem_of_fmap in Hs as (piece & -> & Hpiece).
    split; [apply trim_idemp | by exists piece].
  - by split.
Qed.

(** X16 at an environment with spaces around the commas of [START_URL]. *)
Lemma start_urls_shape_witness :
  let env := {| argv := ["node"; "crawler.js"; ""];
                START_URL := Some " https://example.com/dubai/ ,, https://x.org ";
                SAME_DOMAIN_ONLY := None |} in
  let l := ["https://example.com/dubai/"; "https://x.org"] in
  l ≠ [] ∧ (∀ s, s ∈ l → s ≠ "") ∧
  (JS.filterBoolean (drop 2 (argv env)) ≠ [] →
   l = JS.filterBoolean (drop 2 (argv env))) ∧
  (JS.filterBoolean (drop 2 (argv env)) = [] →
   ∃ v, START_URL env = Some v ∧
     ∀ s, s ∈ l → JS.trim s = s ∧ ∃ piece, piece ∈ JS.split "," v ∧ s = JS.trim piece).
Proof.
  cbv zeta.
  apply (start_urls_shape
           {| argv := ["node"; "crawler.js"; ""];
              START_URL := Some " https://example.com/dubai/ ,, https://x.org ";
              SAME_DOMAIN_ONLY := None |}).
  vm_compute. reflexivity.
Defined.

Lemma split_no_sep (c : ascii) (x : string) :
  JS.includes x (String c "") = false → JS.split c x = [x].
Proof.
  induction x as [|a x IH]; [done|]. rewrite includes_char_cons.
  intros [Ha Hx]%orb_false_iff. simpl. by rewrite Ha, (IH Hx).
Qed.

Lemma split_app_sep (c : ascii) (x rest : string) :
  JS.includes x (String c "") = false →
  JS.split c (x +:+ String c "" +:+ rest) = x :: JS.split c rest.
Proof.
  induction x as [|a x IH].
  - intros _. simpl. by rewrite bool_decide_eq_true_2.
  - rewrite includes_char_cons. intros [Ha Hx]%orb_false_iff.
    rewrite str_app_cons. simpl. by rewrite Ha, (IH Hx).
Qed.

Lemma split_join (c : ascii) (l : list string) :
  l ≠ [] → (∀ x, x ∈ l → JS.includes x (String c "") = false) →
  JS.split c (JS.join (String c "") l) = l.
Proof.
  induction l as [|x l IH]; [done|]. intros _ Hno.
  destruct l as [|y l].
  - simpl. apply split_no_sep, Hno, list_elem_of_here.
  - change (JS.join (String c "") (x :: y :: l))
      with (x +:+ String c "" +:+ JS.join (String c "") (y :: l)).
    rewrite split_app_sep by apply Hno, list_elem_of_here.
    f_equal. apply IH; [done|]. intros z Hz. by apply Hno, list_elem_of_further.
Qed.

(** X17. The count that the plain crawler logs is the number of recorded
    URLs, and [links.txt] holds one link per line: as long as there is a
    link and no link holds a line feed, splitting the file content at line
    feeds gives the sorted array back. *)
Theorem links_txt_round_trip (discoveredLinks : gset string) :
  let linksArray := sortedLinks discoveredLinks in
  Links.loggedCount linksArray = size discoveredLinks ∧
  (discoveredLinks ≠ ∅ →
   (∀ x, x ∈ discoveredLinks → JS.includes x (String "010" "") = false) →
   JS.split "010" (Links.linksTxt linksArray) = linksArray).
Proof.
  cbv zeta. split.
  - unfold Links.loggedCount. by rewrite sortedLinks_perm.
  - intros Hne Hno. apply split_join.
    + intros Hnil. apply Hne, set_eq. intros x.
      rewrite <-elem_of_sortedLinks, Hnil.
      split; [by intros ?%not_elem_of_nil | by intros ?%not_elem_of_empty].
    + intros x Hx. by apply Hno, elem_of_sortedLinks.
Qed.

(** X18. On a host that no seed names the scoped handler decides by the
    flag alone: without [sameDomainOnly] it records every link, page or
    asset, whatever its path; with [sameDomainOnly] it records none. *)
Theorem foreign_hosts_all_or_nothing {URL : Type} `{!URLApi URL}
    (seeds : list string) (sdo : bool) (u : URL) :
  (∀ s x, s ∈ seeds → newURL s = Some x → hostname x ≠ hostname u) →
  Scoped.shouldRecord (Scoped.buildScope seeds sdo) u = negb sdo ∧
  Scoped.isInScope u sdo (getAllowedHostnames seeds)
    (Scoped.getHostnameToPathPrefixes seeds) = negb sdo.
Proof.
  intros Hforeign.
  assert (hostname u ∉ getAllowedHostnames seeds) as Hout.
  { intros (s & x & Hs & Hx & Hh)%elem_of_getAllowedHostnames.
    by destruct (Hforeign s x). }
  assert (Scoped.isInScope u sdo (getAllowedHostnames seeds)
            (Scoped.getHostnameToPathPrefixes seeds) = negb sdo) as Hscope.
  { unfold Scoped.isInScope.
    rewrite (bool_decide_eq_false_2 _ Hout), (prefix_table_foreign_host seeds) by done.
    by destruct sdo. }
  split; [|done]. unfold Scoped.shouldRecord, Scoped.buildScope.
  cbn [Scoped.sameDomainOnly Scoped.allowedHostnames Scoped.hostnameToPrefixes
       Scoped.hostnameToScopeTokens].
  rewrite Hscope, (bool_decide_eq_false_2 _ Hout), orb_false_r.
  destruct (Scoped.isLikelyBinaryAsset (pathname u)); [|done].
  unfold Scoped.assetMatchesScope.
  rewrite scope_tokens_lookup, (prefix_table_foreign_host seeds) by done.
  by rewrite andb_true_r.
Qed.

(** X18 at a page of another host, with the flag off. *)
Lemma foreign_hosts_all_or_nothing_witness :
  let seeds := ["https://example.com/dubai/"] in
  let u := SimpleURL.mk "https" (Some "other.com") "/anything" None None in
  Scoped.shouldRecord (Scoped.buildScope seeds false) u = true ∧
  Scoped.isInScope u false (getAllowedHostnames (URL := SimpleURL.url) seeds)
    (Scoped.getHostnameToPathPrefixes seeds) = true.
Proof.
  cbv zeta.
  apply (foreign_hosts_all_or_nothing ["https://example.com/dubai/"] false
           (SimpleURL.mk "https" (Some "other.com") "/anything" None None)).
  intros s x Hs Hx. apply list_elem_of_singleton in Hs as ->.
  vm_compute in Hx. injection Hx as <-. vm_compute. discriminate.
Defined.
